(** * EcoBin: the reward-token lifecycle and the intake agent

    A shallow embedding of [app.py] (the Flask server: token issuance,
    redemption, QR serving) and of [arduino_listener.py] (the device-side
    intake loop), followed by the properties of the reward-token life cycle.

    Conventions of the embedding:
    - a database table is a Rocq value threaded through the handlers; the
      [user] table is a finite map from the primary key to the row, the
      [reward_token] table is the list of its rows in insertion order;
    - Python [int] is [Z]; a [datetime] is a [Z] (a clock reading); a
      Python [str] is the [string] of its UTF-8 bytes, so that U+00A0 is
      the two bytes 194, 160;
    - whatever a handler takes from its environment (the session cookie, the
      request body, [uuid4()], [datetime.utcnow()], the host the request was
      sent to) is an explicit argument;
    - an unhandled Python exception is a value ([raises], or the HTTP 500
      Flask answers with). *)

From Stdlib Require Import Ascii String ZArith NArith Lia.
From stdpp Require Import gmap strings list fin_maps.

Set Warnings "-register-all".

#[local] Open Scope Z_scope.
#[local] Open Scope string_scope.

(** ** Python values used by both programs *)

Module Py.

(** [str.lower] on the ASCII letters.  Python lowers by the Unicode tables;
    no character outside ASCII lowers to a letter of "bottle", "paper" or
    "p", so membership tests against these words are decided alike. *)
Definition ascii_lower (c : ascii) : ascii :=
  let n := N_of_ascii c in
  if ((65 <=? n) && (n <=? 90))%N then ascii_of_N (n + 32) else c.

Fixpoint lower (s : string) : string :=
  match s with
  | EmptyString => EmptyString
  | String c r => String (ascii_lower c) (lower r)
  end.

(** A [string] holds the UTF-8 encoding of a Python [str].  [chars] cuts it
    into its characters: a character is a byte that is no continuation
    byte (0x80-0xBF), with the continuation bytes that follow it. *)
Definition is_continuation (c : ascii) : bool :=
  let n := N_of_ascii c in ((128 <=? n) && (n <=? 191))%N.

Fixpoint chars (s : string) : list string :=
  match s with
  | EmptyString => []
  | String c r =>
      match chars r with
      | (String c1 _ as ch) :: chs =>
          if is_continuation c1 then String c ch :: chs
          else String c EmptyString :: ch :: chs
      | chs => String c EmptyString :: chs
      end
  end.

Definition utf8 (bytes : list N) : string :=
  foldr (fun b s => String (ascii_of_N b) s) EmptyString bytes.

(** The characters [str.isspace] and [str.strip] take for white space:
    U+0009-000D, U+001C-001F, U+0020, U+0085, U+00A0, U+1680, U+2000-200A,
    U+2028, U+2029, U+202F, U+205F and U+3000, each in UTF-8. *)
Definition whitespace : list string :=
  utf8 <$> [[9]; [10]; [11]; [12]; [13]; [28]; [29]; [30]; [31]; [32];
            [194; 133]; [194; 160]; [225; 154; 128];
            [226; 128; 128]; [226; 128; 129]; [226; 128; 130]; [226; 128; 131];
            [226; 128; 132]; [226; 128; 133]; [226; 128; 134]; [226; 128; 135];
            [226; 128; 136]; [226; 128; 137]; [226; 128; 138];
            [226; 128; 168]; [226; 128; 169]; [226; 128; 175];
            [226; 129; 159]; [227; 128; 128]]%N.

(** [str.isspace] on one character. *)
Definition isspace (ch : string) : bool :=
  existsb (String.eqb ch) whitespace.

Fixpoint lstrip_chars (l : list string) : list string :=
  match l with
  | [] => []
  | ch :: rest => if isspace ch then lstrip_chars rest else l
  end.

Definition join (l : list string) : string :=
  foldr String.append EmptyString l.

Definition lstrip (s : string) : string := join (lstrip_chars (chars s)).

Definition rstrip (s : string) : string :=
  join (rev (lstrip_chars (rev (chars s)))).

(** [str.strip()]: the white space is taken off the front, then off the
    end. *)
Definition strip (s : string) : string :=
  join (rev (lstrip_chars (rev (lstrip_chars (chars s))))).

(** A parsed JSON document.  Numbers matter here only through being zero
    or not, so they are integers. *)
Inductive json : Type :=
| JNull
| JBool (b : bool)
| JNum (n : Z)
| JStr (s : string)
| JArr (items : list json)
| JObj (members : list (string * json)).

(** Python truthiness, as used by [x or default] and [if x:]. *)
Definition truthy (j : json) : bool :=
  match j with
  | JNull => false
  | JBool b => b
  | JNum n => negb (n =? 0)%Z
  | JStr s => negb (String.eqb s "")
  | JArr items => match items with [] => false | _ => true end
  | JObj members => match members with [] => false | _ => true end
  end.

(** [dict.get(key)] on the members of a parsed object; of two members with
    one key the later one is the one [json.loads] keeps. *)
Fixpoint dict_get (key : string) (members : list (string * json)) : option json :=
  match members with
  | [] => None
  | (k, v) :: rest =>
      match dict_get key rest with
      | Some v' => Some v'
      | None => if String.eqb k key then Some v else None
      end
  end.

(** The result of a call that may raise. *)
Inductive outcome (A : Type) : Type :=
| returns (a : A)
| raises (exception : string).
#[global] Arguments returns {A} a.
#[global] Arguments raises {A} exception.

End Py.

(** ** app.py *)

Module App.
Import Py.

(** *** Models (lines 69-131) *)

Module User.
(** The columns of [User] the reward flow reads or writes; the primary
    key [id] is the key of the table. *)
Record t : Type := mk { username : string; points : Z; is_admin : bool }.

(** [UPDATE user SET points = ?] on one row. *)
Definition set_points (n : Z) (u : t) : t :=
  {| username := username u; points := n; is_admin := is_admin u |}.
End User.

Module RewardToken.
Record t : Type := mk {
  id : Z;
  token : string;
  material : string;
  points : Z;
  created_at : Z;
  redeemed : bool;
  redeemed_at : option Z;
  redeemed_by_id : option Z
}.

(** [RewardToken(token=..., material=..., points=...)] once inserted:
    the column defaults fill the rest. *)
Definition new (id : Z) (token material : string) (points now : Z) : t :=
  {| id := id; token := token; material := material; points := points;
     created_at := now; redeemed := false;
     redeemed_at := None; redeemed_by_id := None |}.

(** The three assignments of lines 286-288 and 390-392. *)
Definition redeem (now user_id : Z) (r : t) : t :=
  {| id := id r; token := token r; material := material r;
     points := points r; created_at := created_at r; redeemed := true;
     redeemed_at := Some now; redeemed_by_id := Some user_id |}.
End RewardToken.

Record db : Type := mkdb {
  reward_token : list RewardToken.t;
  user : gmap Z User.t
}.

(** [RewardToken.query.filter_by(token=...).first()] *)
Definition first_by_token (tok : string) (d : db) : option RewardToken.t :=
  List.find (fun r => String.eqb (RewardToken.token r) tok) (reward_token d).

(** The primary key the database gives the next inserted row. *)
Definition next_id (rows : list RewardToken.t) : Z :=
  1 + foldr (fun r m => Z.max (RewardToken.id r) m) 0 rows.

(** *** Responses *)

(** The texts passed to [flash], by the place that flashes them. *)
Inductive message : Type :=
| PleaseLogIn                                   (* flask_login, unauthorized *)
| ScanEnterCode                                 (* line 278 *)
| ScanCodeNotFound                              (* line 282 *)
| ScanCodeAlreadyUsed                           (* line 284 *)
| ScanAwarded (points : Z) (material : string)  (* line 291 *)
| RedeemCodeAlreadyUsed                         (* line 387 *)
| RedeemYouReceived (points : Z).               (* line 395 *)

Inductive response : Type :=
| abort (status : Z)
| redirect (endpoint : string) (flashed : list (string * message))
| render_template (template : string) (flashed : list (string * message))
| jsonify (status : Z) (body : list (string * json))
| send_file (path : string) (mimetype : string)
| internal_server_error (exception : string).

(** *** Redemption: [redeem_reward] (lines 382-396), [scan] (lines 272-300) *)

(** [@login_required] with [load_user]: the session names a user id, the
    row is fetched, and an anonymous caller is sent to the login view. *)
Definition load_user (user_id : option Z) (d : db) : option (Z * User.t) :=
  match user_id with
  | None => None
  | Some uid => match user d !! uid with
                | None => None
                | Some u => Some (uid, u)
                end
  end.

Definition unauthorized : response := redirect "login" [("message", PleaseLogIn)].

(** What a request's ORM session holds once it has loaded its rows. *)
Record session : Type := mksession {
  current_user_id : Z;
  current_user : User.t;
  reward : RewardToken.t
}.

(** The flush at [db.session.commit()] (lines 286-290, 390-394): the
    reward row is updated by primary key, and the user's [points] column
    is set to the value computed in Python from the loaded row. *)
Definition commit_redemption (s : session) (now : Z) (d : db) : db :=
  let rid := RewardToken.id (reward s) in
  let new_points := User.points (current_user s) + RewardToken.points (reward s) in
  {| reward_token :=
       map (fun r => if (RewardToken.id r =? rid)%Z
                     then RewardToken.redeem now (current_user_id s) r else r)
           (reward_token d);
     user := alter (User.set_points new_points) (current_user_id s) (user d) |}.

(** [redeem_reward] up to and including the query of line 385. *)
Definition redeem_reward_query (user_id : option Z) (token : string) (d : db)
  : response + session :=
  match load_user user_id d with
  | None => inl unauthorized
  | Some (uid, u) =>
      match first_by_token token d with
      | None => inl (abort 404)
      | Some r => inr (mksession uid u r)
      end
  end.

(** [redeem_reward] from line 386 on. *)
Definition redeem_reward_finish (s : session) (now : Z) (d : db) : response * db :=
  if RewardToken.redeemed (reward s)
  then (redirect "dashboard" [("warning", RedeemCodeAlreadyUsed)], d)
  else (redirect "dashboard"
          [("success", RedeemYouReceived (RewardToken.points (reward s)))],
        commit_redemption s now d).

Definition redeem_reward (user_id : option Z) (token : string) (now : Z) (d : db)
  : response * db :=
  match redeem_reward_query user_id token d with
  | inl resp => (resp, d)
  | inr s => redeem_reward_finish s now d
  end.

(** [scan], POST branch, up to and including the query of line 280;
    [form_token] is [request.form.get("token")]. *)
Definition scan_query (user_id : option Z) (form_token : option string) (d : db)
  : response + session :=
  match load_user user_id d with
  | None => inl unauthorized
  | Some (uid, u) =>
      let token_value := strip (default "" form_token) in
      if String.eqb token_value ""
      then inl (render_template "scan.html" [("danger", ScanEnterCode)])
      else match first_by_token token_value d with
           | None => inl (render_template "scan.html" [("danger", ScanCodeNotFound)])
           | Some r => inr (mksession uid u r)
           end
  end.

(** [scan] from line 283 on. *)
Definition scan_finish (s : session) (now : Z) (d : db) : response * db :=
  if RewardToken.redeemed (reward s)
  then (render_template "scan.html" [("warning", ScanCodeAlreadyUsed)], d)
  else (redirect "dashboard"
          [("success", ScanAwarded (RewardToken.points (reward s))
                                   (RewardToken.material (reward s)))],
        commit_redemption s now d).

Definition scan_post (user_id : option Z) (form_token : option string) (now : Z) (d : db)
  : response * db :=
  match scan_query user_id form_token d with
  | inl resp => (resp, d)
  | inr s => scan_finish s now d
  end.

(** [scan] answering GET: the page, nothing flashed, nothing written. *)
Definition scan_get (user_id : option Z) (d : db) : response * db :=
  match load_user user_id d with
  | None => (unauthorized, d)
  | Some _ => (render_template "scan.html" [], d)
  end.

(** [reward_details] (lines 376-379): a read-only view. *)
Definition reward_details (token : string) (d : db) : response * db :=
  match first_by_token token d with
  | None => (abort 404, d)
  | Some _ => (render_template "reward.html" [], d)
  end.

(** *** Requests served one after another, and requests in flight together *)

Inductive request : Type :=
| RedeemReward (user_id : option Z) (token : string)          (* POST /reward/<token>/redeem *)
| ScanPost (user_id : option Z) (form_token : option string). (* POST /scan *)

(** One request served from start to end; [now] is what
    [datetime.utcnow()] reads while it is served. *)
Definition handle (rq : request) (now : Z) (d : db) : response * db :=
  match rq with
  | RedeemReward u t => redeem_reward u t now d
  | ScanPost u f => scan_post u f now d
  end.

Fixpoint serve_all (calls : list (request * Z)) (d : db) : list response * db :=
  match calls with
  | [] => ([], d)
  | (rq, now) :: rest =>
      let '(resp, d1) := handle rq now d in
      let '(resps, d2) := serve_all rest d1 in
      (resp :: resps, d2)
  end.

(** A request being served by its own worker.  The handlers take no lock
    and issue no conditional update: between the SELECT of the query and
    the UPDATEs of the commit the database is free to serve another
    worker.  So a worker has two steps, each of them atomic. *)
Inductive worker : Type :=
| Accepted (rq : request) (now : Z)
| Queried (rq : request) (s : session) (now : Z)
| Responded (resp : response).

Definition worker_step (w : worker) (d : db) : worker * db :=
  match w with
  | Accepted rq now =>
      match match rq with
            | RedeemReward u t => redeem_reward_query u t d
            | ScanPost u f => scan_query u f d
            end with
      | inl resp => (Responded resp, d)
      | inr s => (Queried rq s now, d)
      end
  | Queried rq s now =>
      let '(resp, d1) := match rq with
                         | RedeemReward _ _ => redeem_reward_finish s now d
                         | ScanPost _ _ => scan_finish s now d
                         end in
      (Responded resp, d1)
  | Responded _ => (w, d)
  end.

(** The scheduler lets worker [i] take one step. *)
Definition schedule_step (cfg : list worker * db) (i : nat) : list worker * db :=
  match cfg.1 !! i with
  | None => cfg
  | Some w => let '(w1, d1) := worker_step w cfg.2 in (<[i := w1]> cfg.1, d1)
  end.

Definition run_schedule (sched : list nat) (cfg : list worker * db) : list worker * db :=
  foldl schedule_step cfg sched.

Definition response_of (w : worker) : option response :=
  match w with Responded resp => Some resp | _ => None end.

(** What a response tells the caller about the token. *)
Inductive redeem_outcome : Type :=
| Credited (points : Z)
| AlreadyRedeemed
| NotFound
| Refused.

Definition outcome_of (resp : response) : redeem_outcome :=
  match resp with
  | abort status => if (status =? 404)%Z then NotFound else Refused
  | redirect _ [(_, RedeemYouReceived p)] => Credited p
  | redirect _ [(_, ScanAwarded p _)] => Credited p
  | redirect _ [(_, RedeemCodeAlreadyUsed)] => AlreadyRedeemed
  | render_template _ [(_, ScanCodeAlreadyUsed)] => AlreadyRedeemed
  | render_template _ [(_, ScanCodeNotFound)] => NotFound
  | _ => Refused
  end.

Definition is_credited (resp : response) : bool :=
  match outcome_of resp with Credited _ => true | _ => false end.

Definition is_already_redeemed (resp : response) : bool :=
  match outcome_of resp with AlreadyRedeemed => true | _ => false end.

Definition points_of (uid : Z) (d : db) : Z :=
  match user d !! uid with Some u => User.points u | None => 0 end.

(** *** Issuance and QR codes: [api_reward] (409-438), [serve_qr] (399-406) *)

Section QR.
(** The [qrcode] library stays outside: an image type and
    [qrcode.make(data)] rendered to PNG. *)
Context {image : Type}.
Variable qrcode_make : string -> image.

(** The directory [QR_DIR], by file name, and the calls of
    [build_qr_code] so far with their two arguments (latest first). *)
Record qr_dir : Type := mkqr {
  files : gmap string image;
  built : list (string * string)
}.

Definition qr_image_path (token_value : string) : string :=
  token_value ++ ".png".

Definition build_qr_code (token_value redeem_url : string) (q : qr_dir) : qr_dir :=
  {| files := <[qr_image_path token_value := qrcode_make redeem_url]> (files q);
     built := (token_value, redeem_url) :: built q |}.

(** [url_for(endpoint, token=token, _external=True)]: the root the
    request was addressed to, then the route.  Tokens are hexadecimal,
    so quoting leaves them as they are. *)
Definition url_for_reward_details (host_url token : string) : string :=
  host_url ++ "/reward/" ++ token.

Definition url_for_serve_qr (host_url token : string) : string :=
  host_url ++ "/reward/" ++ token ++ "/qrcode".

Definition serve_qr (token host_url : string) (d : db) (q : qr_dir)
  : response * qr_dir :=
  match first_by_token token d with
  | None => (abort 404, q)
  | Some _ =>
      let redeem_url := url_for_reward_details host_url token in
      let path := qr_image_path token in
      let q1 := match files q !! path with
                | None => build_qr_code token redeem_url q
                | Some _ => q
                end in
      (send_file path "image/png", q1)
  end.

(** [points = 100 if material == "bottle" else 50] *)
Definition tariff (material : string) : Z :=
  if String.eqb material "bottle" then 100 else 50.

Definition in_tariff (material : string) : bool :=
  String.eqb material "bottle" || String.eqb material "paper".

(** [api_key] is the X-API-KEY header if sent; [body] is
    [request.get_json(silent=True)]; [uuid4_hex] is [uuid4().hex].  The
    [unique=True] of the [token] column refuses a second row with the
    same token at the commit. *)
Definition api_reward (API_TOKEN : string) (api_key : option string)
    (body : option json) (uuid4_hex : string) (now : Z) (host_url : string)
    (d : db) (q : qr_dir) : response * db * qr_dir :=
  if negb (match api_key with Some k => String.eqb k API_TOKEN | None => false end)
  then (jsonify 401 [("error", JStr "unauthorized")], d, q)
  else
    let payload := match body with
                   | Some j => if truthy j then j else JObj []
                   | None => JObj []
                   end in
    match payload with
    | JObj members =>
        let value := match dict_get "material" members with
                     | Some v => if truthy v then v else JStr ""
                     | None => JStr ""
                     end in
        match value with
        | JStr s =>
            let material := lower s in
            if negb (in_tariff material)
            then (jsonify 400 [("error", JStr "material must be 'bottle' or 'paper'")], d, q)
            else
              let points := tariff material in
              let token_value := uuid4_hex in
              match first_by_token token_value d with
              | Some _ => (internal_server_error "IntegrityError", d, q)
              | None =>
                  let row := RewardToken.new (next_id (reward_token d))
                               token_value material points now in
                  let d1 := {| reward_token := reward_token d ++ [row];
                               user := user d |} in
                  let redeem_url := url_for_reward_details host_url token_value in
                  let q1 := build_qr_code token_value redeem_url q in
                  let qr_url := url_for_serve_qr host_url token_value in
                  (jsonify 200 [("token", JStr token_value);
                                ("material", JStr material);
                                ("points", JNum points);
                                ("redeem_url", JStr redeem_url);
                                ("qr_url", JStr qr_url)], d1, q1)
              end
        | _ => (internal_server_error "AttributeError", d, q)
        end
    | _ => (internal_server_error "AttributeError", d, q)
    end.

(** The routes of the reward flow, each with what it takes from the
    request, and what a handler takes from the process around it. *)
Inductive http_request : Type :=
| POST_api_reward (api_key : option string) (body : option json)
| GET_reward (token : string)
| POST_redeeming (rq : request)
| GET_scan (user_id : option Z)
| GET_reward_qrcode (token : string).

Record environment : Type := mkenv {
  env_uuid4_hex : string;    (* uuid4().hex *)
  env_utcnow : Z;            (* datetime.utcnow() *)
  env_host_url : string      (* the root url_for(..., _external=True) builds on *)
}.

Definition dispatch (API_TOKEN : string) (rq : http_request) (env : environment)
    (d : db) (q : qr_dir) : response * db * qr_dir :=
  match rq with
  | POST_api_reward api_key body =>
      api_reward API_TOKEN api_key body (env_uuid4_hex env) (env_utcnow env)
                 (env_host_url env) d q
  | GET_reward token => let '(resp, d1) := reward_details token d in (resp, d1, q)
  | POST_redeeming rq => let '(resp, d1) := handle rq (env_utcnow env) d in (resp, d1, q)
  | GET_scan user_id => let '(resp, d1) := scan_get user_id d in (resp, d1, q)
  | GET_reward_qrcode token =>
      let '(resp, q1) := serve_qr token (env_host_url env) d q in (resp, d, q1)
  end.

(** Requests served one after another from a given state. *)
Fixpoint serve_requests (API_TOKEN : string)
    (ops : list (http_request * environment)) (d : db) (q : qr_dir) : db * qr_dir :=
  match ops with
  | [] => (d, q)
  | (rq, env) :: rest =>
      let '(_, d1, q1) := dispatch API_TOKEN rq env d q in
      serve_requests API_TOKEN rest d1 q1
  end.

End QR.

#[global] Arguments qr_dir : clear implicits.

(** *** Levels: [LEVELS] (lines 60-66), [User.current_level] (lines 88-108) *)

Module Levels.

Definition LEVELS : list (string * Z) :=
  [("Новичок", 0); ("Собирающий", 100); ("Эко-герой", 200);
   ("Наставник", 400); ("Легенда", 800)].

(** The dictionary [current_level] returns. *)
Record level_info : Type := mklevel {
  index : Z;
  name : string;
  threshold : Z;
  next_threshold : option Z
}.

(** The [for] of line 90 over [enumerate(reversed(LEVELS))]: the position
    of the first threshold the points reach. *)
Fixpoint first_reached (points : Z) (reversed_levels : list (string * Z)) (index : nat)
  : option nat :=
  match reversed_levels with
  | [] => None
  | (_, threshold) :: rest =>
      if (threshold <=? points)%Z then Some index
      else first_reached points rest (S index)
  end.

Definition current_level (points : Z) : level_info :=
  match first_reached points (rev LEVELS) 0 with
  | Some index =>
      let level_index := (length LEVELS - index - 1)%nat in
      let '(level_name, level_threshold) := LEVELS !!! level_index in
      {| index := Z.of_nat level_index + 1;
         name := level_name;
         threshold := level_threshold;
         next_threshold :=
           if (level_index + 1 <? length LEVELS)%nat
           then Some (LEVELS !!! (level_index + 1)%nat).2 else None |}
  | None =>
      {| index := 1;
         name := (LEVELS !!! 0%nat).1;
         threshold := (LEVELS !!! 0%nat).2;
         next_threshold :=
           if (1 <? length LEVELS)%nat then Some (LEVELS !!! 1%nat).2 else None |}
  end.

End Levels.

End App.

(** ** arduino_listener.py *)

Module Listener.
Import Py.

(** What [classify_material] reads off a captured frame through cv2 and
    numpy (lines 45-47 and 53-54).  The pixel arithmetic is floating point
    and stays outside; the model keeps the two comparisons that decide. *)
Record frame : Type := mkframe {
  blue_ratio_above_0_1 : bool;       (* blue_ratio > 0.1 *)
  mean_intensity_above_150 : bool    (* mean_intensity > 150 *)
}.

(** The answers of the environment, one per call, in the order of the
    calls. *)
Inductive serial_read : Type :=
| SerialException
| Line (text : string).              (* ser.readline().decode(errors="ignore") *)

Inductive capture : Type :=
| NotOpened                          (* cap.isOpened() is false *)
| NoFrame                            (* cap.read() reports no success *)
| Frame (f : frame).

(** A redirect that [requests] follows: a reply with a [Location] header
    and one of the statuses 301, 302, 303, 307, 308. *)
Inductive redirection : Type :=
| ChangeToGet                        (* 301, 302, 303: goes on with a GET, the body dropped *)
| SameMethod.                        (* 307, 308: the same method and body again *)

(** The answer to one request on the wire. *)
Inductive http_reply : Type :=
| RequestException                   (* no connection, or the 10 s timeout *)
| Redirected (how : redirection)
| Reply (status : Z) (body : option json).   (* body: None when it is not JSON *)

(** What the program prints, by the place that prints it. *)
Inductive text : Type :=
| CameraNotOpened                    (* line 32 *)
| SnapshotFailed                     (* line 38 *)
| ApiRequestFailed                   (* line 73 *)
| WaitingForSignal                   (* line 80 *)
| PortOpenFailed                     (* line 88 *)
| PortReadFailed                     (* line 96 *)
| SensorEvent                        (* line 106 *)
| MaterialDetermined (material : string)          (* line 112 *)
| QrReady (material points qr_url : json)         (* lines 116-120 *)
| ShuttingDown.                      (* line 124 *)

Inductive event : Type :=
| OpenSerial                         (* serial.Serial(SERIAL_PORT, SERIAL_BAUDRATE, timeout=1) *)
| CloseSerial                        (* ser.close() *)
| Sleep (milliseconds : Z)           (* time.sleep *)
| Prompt                             (* input(...) *)
| HttpPost (material : string)       (* a POST to API_URL with the body {"material": material} *)
| HttpGet                            (* the GET that follows a 301, 302 or 303 *)
| Stdout (t : text)
| Stderr (t : text).

(** [capture_frame] (lines 28-40); a camera with no answer left cannot be
    opened.  ECOBIN_CAMERA is taken to hold a number, so that the [int] of
    line 29 returns, and [cv2] to answer rather than raise. *)
Definition capture_frame (camera : list capture)
  : option frame * list event * list capture :=
  match camera with
  | [] => (None, [Stderr CameraNotOpened], [])
  | NotOpened :: camera1 => (None, [Stderr CameraNotOpened], camera1)
  | NoFrame :: camera1 => (None, [Stderr SnapshotFailed], camera1)
  | Frame f :: camera1 => (Some f, [], camera1)
  end.

(** [classify_material] (lines 43-60).  [stdin] is the lines the operator
    will type; [input] takes the first, and raises [EOFError] when there
    is none. *)
Definition classify_material (f : frame) (stdin : list string)
  : outcome string * list event * list string :=
  if blue_ratio_above_0_1 f then (returns "bottle", [], stdin)
  else if mean_intensity_above_150 f then (returns "paper", [], stdin)
  else match stdin with
       | [] => (raises "EOFError", [Prompt], [])
       | typed :: stdin1 =>
           let response := lower (strip typed) in
           (returns (if negb (String.eqb response "paper" || String.eqb response "p")
                     then "bottle" else "paper"),
            [Prompt], stdin1)
       end.

(** [requests.post] once its first request is on the wire.  The reply is
    read; a redirect is followed, at most [redirects_left] times, beyond
    which [TooManyRedirects], a [RequestException], is raised; [posting]
    tells whether the method is still POST.  [network] is the replies to
    successive requests on the wire; with none left the server is
    unreachable.  [raise_for_status] raises on 4xx and 5xx;
    [response.json()] is outside the [try]. *)
Fixpoint follow_redirects (redirects_left : nat) (material : string) (posting : bool)
    (network : list http_reply) {struct network}
  : outcome (option json) * list event * list http_reply :=
  match network with
  | [] => (returns None, [Stderr ApiRequestFailed], [])
  | RequestException :: network1 =>
      (returns None, [Stderr ApiRequestFailed], network1)
  | Redirected how :: network1 =>
      match redirects_left with
      | O => (returns None, [Stderr ApiRequestFailed], network1)
      | S redirects_left1 =>
          let posting1 := match how with SameMethod => posting | ChangeToGet => false end in
          let '(result, ev, network2) := follow_redirects redirects_left1 material posting1 network1 in
          (result, (if posting1 then HttpPost material else HttpGet) :: ev, network2)
      end
  | Reply status body :: network1 =>
      if ((400 <=? status) && (status <? 600))%Z
      then (returns None, [Stderr ApiRequestFailed], network1)
      else match body with
           | None => (raises "JSONDecodeError", [], network1)
           | Some j => (returns (Some j), [], network1)
           end
  end.

(** The redirects [requests] follows in one call (its
    [DEFAULT_REDIRECT_LIMIT]). *)
Definition max_redirects : nat := 30.

(** [request_reward] (lines 63-75): one call of [requests.post]. *)
Definition request_reward (material : string) (network : list http_reply)
  : outcome (option json) * list event * list http_reply :=
  let '(result, ev, network1) := follow_redirects max_redirects material true network in
  (result, HttpPost material :: ev, network1).

(** Lines 115-120: the report of a reward, which subscripts it. *)
Definition report_reward (reward : option json) : outcome (list event) :=
  match reward with
  | None => returns []
  | Some j =>
      if negb (truthy j) then returns []
      else match j with
           | JObj members =>
               match dict_get "material" members, dict_get "points" members,
                     dict_get "qr_url" members with
               | Some m, Some p, Some u => returns [Stdout (QrReady m p u)]
               | _, _, _ => raises "KeyError"
               end
           | _ => raises "TypeError"
           end
  end.

Inductive status : Type :=
| Listening                          (* the loop is running, waiting for the next read *)
| Exited (code : Z)                  (* sys.exit(code) *)
| Died (exception : string).         (* an exception left [main] *)

(** The [while True] of lines 92-121, along the reads of the serial
    port.  The exceptions that end it are those of the three calls modelled
    as raising: [input], [response.json()] and the subscripts of the
    reward; an interrupt from the keyboard is not part of the model. *)
Fixpoint loop (SENSOR_TRIGGER_VALUE : string) (serial : list serial_read)
    (camera : list capture) (stdin : list string) (network : list http_reply)
  : list event * status :=
  match serial with
  | [] => ([], Listening)
  | SerialException :: serial1 =>
      let '(tr, st) := loop SENSOR_TRIGGER_VALUE serial1 camera stdin network in
      (Stderr PortReadFailed :: Sleep 1000 :: tr, st)
  | Line txt :: serial1 =>
      let line := strip txt in
      if String.eqb line "" then loop SENSOR_TRIGGER_VALUE serial1 camera stdin network
      else if negb (String.eqb line SENSOR_TRIGGER_VALUE)
      then loop SENSOR_TRIGGER_VALUE serial1 camera stdin network
      else
        match capture_frame camera with
        | (None, ev1, camera1) =>
            let '(tr, st) := loop SENSOR_TRIGGER_VALUE serial1 camera1 stdin network in
            (Stdout SensorEvent :: ev1 ++ tr, st)
        | (Some f, ev1, camera1) =>
            match classify_material f stdin with
            | (raises e, ev2, _) => (Stdout SensorEvent :: ev1 ++ ev2, Died e)
            | (returns material, ev2, stdin1) =>
                match request_reward material network with
                | (raises e, ev3, _) =>
                    (Stdout SensorEvent :: ev1 ++ ev2
                       ++ Stdout (MaterialDetermined material) :: ev3, Died e)
                | (returns reward, ev3, network1) =>
                    match report_reward reward with
                    | raises e =>
                        (Stdout SensorEvent :: ev1 ++ ev2
                           ++ Stdout (MaterialDetermined material) :: ev3, Died e)
                    | returns ev4 =>
                        let '(tr, st) :=
                          loop SENSOR_TRIGGER_VALUE serial1 camera1 stdin1 network1 in
                        (Stdout SensorEvent :: ev1 ++ ev2
                           ++ Stdout (MaterialDetermined material) :: ev3
                           ++ ev4 ++ Sleep 500 :: tr, st)
                    end
                end
            end
        end
  end.

(** [main] (lines 84-124).  [port] is the outcome of successive attempts
    to open the serial port ([true]: opened); with none left the device is
    absent. *)
Definition main (SENSOR_TRIGGER_VALUE : string) (port : list bool)
    (serial : list serial_read) (camera : list capture) (stdin : list string)
    (network : list http_reply) : list event * status :=
  match port with
  | true :: _ =>
      let '(tr, st) := loop SENSOR_TRIGGER_VALUE serial camera stdin network in
      (OpenSerial :: Stdout WaitingForSignal :: tr
         ++ match st with
            | Listening => []
            | _ => [CloseSerial; Stdout ShuttingDown]
            end, st)
  | _ => ([OpenSerial; Stderr PortOpenFailed], Exited 1)
  end.

Definition is_post (e : event) : bool :=
  match e with HttpPost _ => true | _ => false end.

Definition is_open (e : event) : bool :=
  match e with OpenSerial => true | _ => false end.

Definition is_sleep (e : event) : bool :=
  match e with Sleep _ => true | _ => false end.

End Listener.

(** ** The properties, as predicates on the embedding *)

Import Py App Listener.

(** A string made of white-space characters only. *)
Inductive blank : string -> Prop :=
| blank_nil : blank ""
| blank_cons ws s : In ws whitespace -> blank s -> blank (ws ++ s).

(** A string that does not start in the middle of a character. *)
Definition starts_char (s : string) : Prop :=
  match s with
  | EmptyString => True
  | String c _ => is_continuation c = false
  end.

(** The token a redeeming request names, and the account it acts for. *)
Definition token_of (rq : request) : string :=
  match rq with
  | RedeemReward _ t => t
  | ScanPost _ f => strip (default "" f)
  end.

Definition caller_of (rq : request) : option Z :=
  match rq with
  | RedeemReward u _ => u
  | ScanPost u _ => u
  end.

(** "N concurrent redeem calls result in exactly one success and N-1
    AlreadyRedeemed; the credit happens once": the callers' requests are all
    in flight, the scheduler interleaves their steps along [sched], and when
    every caller has its response one of them was credited, the others were
    told the token is used, and one account gained the token's points. *)
Definition concurrent_exactly_once
    (d : db) (tok : string) (callers : list (Z * Z)) (sched : list nat) : Prop :=
  let workers := map (fun c : Z * Z => Accepted (RedeemReward (Some c.1) tok) c.2) callers in
  let cfg := run_schedule sched (workers, d) in
  let resps := omap response_of cfg.1 in
  length resps = length callers ->
  length (List.filter is_credited resps) = 1%nat /\
  length (List.filter is_already_redeemed resps) = (length callers - 1)%nat /\
  exists winner p,
    first_by_token tok d = Some p /\
    forall uid, points_of uid cfg.2
                = points_of uid d
                  + (if decide (uid = winner) then RewardToken.points p else 0).

(** The race: one unredeemed bottle token, two logged-in users, and the
    schedule query, query, commit, commit. *)
Definition race_db : db :=
  {| reward_token := [RewardToken.new 1 "c0ffee" "bottle" 100 1000];
     user := {[ 1 := User.mk "aigerim" 0 false; 2 := User.mk "daulet" 30 false ]} |}.

Definition race_callers : list (Z * Z) := [(1, 2000); (2, 2001)].

Definition race_schedule : list nat := [0; 1; 0; 1]%nat.

(** The invariant of a [RewardToken] row: unredeemed rows carry neither
    [redeemed_at] nor [redeemed_by_id], redeemed rows carry both. *)
Definition token_ok (r : RewardToken.t) : bool :=
  match RewardToken.redeemed r, RewardToken.redeemed_at r, RewardToken.redeemed_by_id r with
  | false, None, None => true
  | true, Some _, Some _ => true
  | _, _, _ => false
  end.

(** The invariant of the database: every row is in its invariant, and the
    primary keys are distinct. *)
Definition db_ok (d : db) : bool :=
  forallb token_ok (reward_token d)
  && bool_decide (NoDup (RewardToken.id <$> reward_token d)).

(** The invariant of the QR directory: an image is filed only under a
    token of the registry and is the code of a reward-details URL of that
    token, and no token had its image built twice. *)
Definition qr_ok {image : Type} (qrcode_make : string -> image)
    (d : db) (q : qr_dir image) : Prop :=
  (forall tok img, files q !! qr_image_path tok = Some img ->
     first_by_token tok d <> None
     /\ exists host, img = qrcode_make (url_for_reward_details host tok))
  /\ (forall tok, tok ∈ (built q).*1 -> is_Some (files q !! qr_image_path tok))
  /\ NoDup (built q).*1.

(** The image on file for a token, if there is one, is the code of a
    reward-details URL of that token. *)
Definition image_ok {image : Type} (qrcode_make : string -> image)
    (tok : string) (q : qr_dir image) : Prop :=
  forall img, files q !! qr_image_path tok = Some img ->
    exists host, img = qrcode_make (url_for_reward_details host tok).

(** How many times the image of a token was built. *)
Definition builds_of {image : Type} (tok : string) (q : qr_dir image) : nat :=
  length (List.filter (fun b : string * string => String.eqb b.1 tok) (built q)).

(** No handler deletes a token or renames one. *)
Definition tokens_kept (d d' : db) : Prop :=
  forall tok, first_by_token tok d <> None -> first_by_token tok d' <> None.

(** A call that asks to redeem [tok] on behalf of a user of [d]. *)
Definition redeems (tok : string) (d : db) (c : request * Z) : bool :=
  String.eqb (token_of c.1) tok
  && match caller_of c.1 with
     | Some uid => match user d !! uid with Some _ => true | None => false end
     | None => false
     end.

(** A registry whose only token, "feed", was redeemed by user 7. *)
Definition spent_db : db :=
  {| reward_token :=
       [RewardToken.redeem 1500 7 (RewardToken.new 1 "feed" "paper" 50 1000)];
     user := {[ 7 := User.mk "sanzhar" 50 false; 8 := User.mk "madina" 0 false ]} |}.

(** The failures of a mint request, as the client sees them: no reply
    (no connection, timeout) or a 5xx is "unavailable"; 401 is a bad
    credential, 400 a material the server does not know. *)
Definition unavailable (r : http_reply) : bool :=
  match r with
  | RequestException => true
  | Redirected _ => false
  | Reply status _ => ((500 <=? status) && (status <? 600))%Z
  end.

Definition attempts (ev : list event) : nat := length (List.filter is_post ev).

(** The redirects at the head of the replies, and how many of them from
    the first on ask for the same method again. *)
Fixpoint leading_redirects (network : list http_reply) : nat :=
  match network with
  | Redirected _ :: network1 => S (leading_redirects network1)
  | _ => O
  end.

Fixpoint leading_reposts (network : list http_reply) : nat :=
  match network with
  | Redirected SameMethod :: network1 => S (leading_reposts network1)
  | _ => O
  end.

(** A request on the wire, of either method. *)
Definition is_request (e : event) : bool :=
  match e with HttpPost _ | HttpGet => true | _ => false end.

(** The reply that ends a call of [requests.post] ends it in a failure: no
    reply, a 4xx or 5xx, or one redirect more than [requests] follows. *)
Definition failure (r : http_reply) : bool :=
  match r with
  | RequestException => true
  | Redirected _ => true
  | Reply status _ => ((400 <=? status) && (status <? 600))%Z
  end.

(** A 307 or 308 redirect, and the replies that are one. *)
Definition is_repost (r : http_reply) : bool :=
  match r with Redirected SameMethod => true | _ => false end.

Definition reposts (network : list http_reply) : nat :=
  length (List.filter is_repost network).

(** The print of line 112, which precedes each call of [request_reward]. *)
Definition is_determined (e : event) : bool :=
  match e with Stdout (MaterialDetermined _) => true | _ => false end.

(** "The client retries an Unavailable failure": when the first request of
    a mint call fails as unavailable, a second request follows. *)
Definition retries_unavailable (material : string) (network : list http_reply) : Prop :=
  forall r, head network = Some r -> unavailable r = true ->
            (1 < attempts (request_reward material network).1.2)%nat.

(** "On a failure to open the channel the agent backs off and retries
    opening": when the first attempt to open the port fails, the agent does
    not exit, sleeps one second, and opens again. *)
Definition reopens_port (trigger : string) (port : list bool)
    (serial : list serial_read) (camera : list capture) (stdin : list string)
    (network : list http_reply) : Prop :=
  head port = Some false ->
  let '(tr, st) := main trigger port serial camera stdin network in
  (forall code, st <> Exited code) /\ Sleep 1000 ∈ tr
  /\ (1 < length (List.filter is_open tr))%nat.

(** An event that is not a mint request for anything but a bottle or paper. *)
Definition determinate (e : event) : Prop :=
  match e with
  | HttpPost material => material = "bottle" \/ material = "paper"
  | _ => True
  end.

(** A frame on which neither test of [classify_material] fires. *)
Definition uncertain (f : frame) : bool :=
  negb (blue_ratio_above_0_1 f) && negb (mean_intensity_above_150 f).

(** What issuance fixes in a record: everything but the three columns a
    redemption writes. *)
Definition same_grant (r r' : RewardToken.t) : Prop :=
  RewardToken.id r' = RewardToken.id r
  /\ RewardToken.token r' = RewardToken.token r
  /\ RewardToken.material r' = RewardToken.material r
  /\ RewardToken.points r' = RewardToken.points r
  /\ RewardToken.created_at r' = RewardToken.created_at r.

(** A record whose material is in the tariff and whose points are the
    tariff's. *)
Definition tariff_row (r : RewardToken.t) : bool :=
  in_tariff (RewardToken.material r)
  && (RewardToken.points r =? tariff (RewardToken.material r))%Z.

(** The state of a registry that the reward flow built: rows in their
    invariant, distinct primary keys, distinct tokens, tariff points. *)
Definition registry_wf (d : db) : Prop :=
  db_ok d = true
  /\ NoDup (RewardToken.token <$> reward_token d)
  /\ Forall (fun r => tariff_row r = true) (reward_token d).

(** A read of the serial port that starts a cycle (lines 100-104). *)
Definition fires (trigger : string) (rd : serial_read) : bool :=
  match rd with
  | SerialException => false
  | Line txt => negb (String.eqb (strip txt) "") && String.eqb (strip txt) trigger
  end.

Definition is_line (rd : serial_read) : bool :=
  match rd with Line _ => true | SerialException => false end.

Definition is_frame (c : capture) : bool :=
  match c with Frame _ => true | _ => false end.

Definition is_prompt (e : event) : bool :=
  match e with Prompt => true | _ => false end.

Definition is_close (e : event) : bool :=
  match e with CloseSerial => true | _ => false end.

(** From [d] to [d'] no record was deleted or moved, none changed what
    issuance fixed, and none went back from redeemed to unredeemed. *)
Definition grants_kept (d d' : db) : Prop :=
  forall i r, reward_token d !! i = Some r ->
    exists r', reward_token d' !! i = Some r' /\ same_grant r r'
               /\ (RewardToken.redeemed r = true -> RewardToken.redeemed r' = true).

(** Every token of the registry has its image filed, and the images were
    built in the order of the records, one each. *)
Definition images_follow_records {image : Type} (d : db) (q : qr_dir image) : Prop :=
  (built q).*1 = rev (RewardToken.token <$> reward_token d)
  /\ Forall (fun r => is_Some (files q !! qr_image_path (RewardToken.token r)))
            (reward_token d).

(** A read that is a line and starts no cycle: blank, or not the trigger. *)
Definition ignored (trigger : string) (rd : serial_read) : bool :=
  is_line rd && negb (fires trigger rd).

(** A capture that yields a frame on which neither test decides. *)
Definition is_uncertain_frame (c : capture) : bool :=
  match c with Frame f => uncertain f | _ => false end.

(** ** Strings: [strip] *)

Section Strip.

Lemma append_cons (x : ascii) (a b : string) : String x a ++ b = String x (a ++ b).
Proof. reflexivity. Qed.

Lemma append_nil_l (a : string) : "" ++ a = a.
Proof. reflexivity. Qed.

Lemma append_assoc (a b c : string) : (a ++ b) ++ c = a ++ (b ++ c).
Proof.
  induction a as [|x a IH]; [done|]. by rewrite !append_cons, IH.
Qed.

Lemma join_cons (x : string) (l : list string) : join (x :: l) = x ++ join l.
Proof. reflexivity. Qed.

Lemma join_app (l1 l2 : list string) : join (l1 ++ l2)%list = join l1 ++ join l2.
Proof.
  induction l1 as [|x l1 IH]; [done|].
  change (join ((x :: l1) ++ l2)%list) with (x ++ join (l1 ++ l2)%list).
  change (join (x :: l1)) with (x ++ join l1).
  by rewrite IH, append_assoc.
Qed.

Lemma join_chars (s : string) : join (chars s) = s.
Proof.
  induction s as [|c r IH]; [done|]. simpl.
  destruct (chars r) as [|[|c1 ch] chs].
  - by rewrite <- IH.
  - by rewrite <- IH.
  - destruct (is_continuation c1); by rewrite <- IH.
Qed.

Lemma chars_nil (s : string) : chars s = [] -> s = "".
Proof.
  destruct s as [|c r]; [done|]. simpl.
  destruct (chars r) as [|[|c1 ch] chs]; [done..|]. by destruct (is_continuation c1).
Qed.

Lemma chars_head (c : ascii) (r : string) : exists x y, chars (String c r) = String c x :: y.
Proof.
  simpl. destruct (chars r) as [|[|c1 ch] chs]; [by eauto..|].
  destruct (is_continuation c1); by eauto.
Qed.

Lemma chars_app (s1 s2 : string) :
  starts_char s2 -> chars (s1 ++ s2) = (chars s1 ++ chars s2)%list.
Proof.
  intros Hs. induction s1 as [|c s1 IH]; [done|]. simpl. rewrite IH.
  destruct (chars s1) as [|ch chs] eqn:E; simpl.
  - destruct s2 as [|c2 r2]; [done|]. simpl in Hs.
    destruct (chars_head c2 r2) as (x & y & ->). by rewrite Hs.
  - destruct ch as [|c1 ch]; [done|]. by destruct (is_continuation c1).
Qed.

Lemma whitespace_chars :
  Forall (fun ws => chars ws = [ws] /\ starts_char ws /\ isspace ws = true) whitespace.
Proof.
  unfold whitespace. simpl.
  repeat (apply Forall_cons_2; [by vm_compute|]). apply Forall_nil_2.
Qed.

Lemma whitespace_char (ws : string) :
  In ws whitespace -> chars ws = [ws] /\ starts_char ws /\ isspace ws = true.
Proof.
  intros Hin. pose proof whitespace_chars as H.
  by apply (proj1 (List.Forall_forall _ _) H).
Qed.

Lemma isspace_whitespace (ch : string) : isspace ch = true -> In ch whitespace.
Proof.
  unfold isspace. intros (x & Hin & E)%existsb_exists.
  apply String.eqb_eq in E. by subst.
Qed.

Lemma starts_char_app (s1 s2 : string) :
  s1 <> "" -> starts_char s1 -> starts_char (s1 ++ s2).
Proof. by destruct s1. Qed.

Lemma blank_starts (s : string) : blank s -> starts_char s.
Proof.
  intros [|ws s' Hin _]; [done|].
  destruct (whitespace_char ws Hin) as (Hc & Hs & _).
  apply starts_char_app; [|done]. by intros ->.
Qed.

Lemma blank_chars (s : string) :
  blank s -> Forall (fun ch => isspace ch = true) (chars s).
Proof.
  induction 1 as [|ws s Hin Hb IH]; [constructor|].
  destruct (whitespace_char ws Hin) as (Hc & _ & Hsp).
  rewrite chars_app by by apply blank_starts. rewrite Hc. by constructor.
Qed.

Lemma blank_join (l : list string) :
  Forall (fun ch => isspace ch = true) l -> blank (join l).
Proof.
  induction 1 as [|ch l Hsp _ IH]; [constructor|]. rewrite join_cons.
  constructor; [by apply isspace_whitespace|done].
Qed.

Lemma lstrip_chars_spaces (l1 l2 : list string) :
  Forall (fun ch => isspace ch = true) l1 ->
  lstrip_chars (l1 ++ l2) = lstrip_chars l2.
Proof. induction 1 as [|ch l1 Hsp _ IH]; simpl; [done|]. by rewrite Hsp. Qed.

Lemma lstrip_chars_split (l : list string) :
  exists sp, l = (sp ++ lstrip_chars l)%list /\ Forall (fun ch => isspace ch = true) sp.
Proof.
  induction l as [|ch l (sp & IH & Hsp)]; simpl; [by exists []|].
  destruct (isspace ch) eqn:E.
  - exists (ch :: sp). simpl. split; [by rewrite <- IH|by constructor].
  - by exists [].
Qed.

(** [strip] takes off exactly the white space around a word that neither
    starts nor ends with a white-space character. *)
Lemma strip_frame (pre w post a b : string) (l : list string) :
  blank pre -> blank post -> starts_char w ->
  chars w = a :: l -> last (chars w) = Some b ->
  isspace a = false -> isspace b = false ->
  strip (pre ++ w ++ post) = w.
Proof.
  intros Hpre Hpost Hw Ha Hb Hna Hnb. unfold strip.
  assert (w <> "") as Hne by (intros ->; done).
  rewrite chars_app by (apply starts_char_app; done).
  rewrite chars_app by by apply blank_starts.
  rewrite lstrip_chars_spaces by by apply blank_chars.
  assert (lstrip_chars (chars w ++ chars post) = (chars w ++ chars post)%list) as ->.
  { rewrite Ha. simpl. by rewrite Hna. }
  rewrite rev_app_distr, lstrip_chars_spaces.
  2:{ apply List.Forall_rev. by apply blank_chars. }
  assert (lstrip_chars (rev (chars w)) = rev (chars w)) as ->.
  { apply last_Some in Hb as [l' ->]. rewrite rev_app_distr. simpl. by rewrite Hnb. }
  rewrite rev_involutive. apply join_chars.
Qed.

(** What [strip] takes off is white space. *)
Lemma strip_decompose (s : string) :
  exists pre post, s = pre ++ strip s ++ post /\ blank pre /\ blank post.
Proof.
  unfold strip.
  destruct (lstrip_chars_split (chars s)) as (sp1 & H1 & Hsp1).
  destruct (lstrip_chars_split (rev (lstrip_chars (chars s)))) as (sp2 & H2 & Hsp2).
  exists (join sp1), (join (rev sp2)). split; [|split].
  - rewrite <- !join_app, <- rev_app_distr, <- H2, rev_involutive, <- H1.
    by rewrite join_chars.
  - by apply blank_join.
  - apply blank_join. by apply List.Forall_rev.
Qed.

Lemma ascii_lower_inv (c x : ascii) :
  ascii_lower c = x -> c = x \/ c = ascii_of_N (N_of_ascii x - 32).
Proof.
  intros <-. destruct c as [[] [] [] [] [] [] [] []]; vm_compute; auto.
Qed.

(** A word that [lower] takes to "paper" or "p" is freed by [strip] of the
    white space around it. *)
Lemma strip_paper (pre word post : string) :
  lower word = "paper" \/ lower word = "p" ->
  blank pre -> blank post -> strip (pre ++ word ++ post) = word.
Proof.
  intros Hw Hpre Hpost.
  destruct Hw as [Hw|Hw].
  - destruct word as [|c1 [|c2 [|c3 [|c4 [|c5 [|c6 word]]]]]]; try done.
    simpl in Hw. injection Hw as H1 H2 H3 H4 H5.
    apply ascii_lower_inv in H1, H2, H3, H4, H5.
    destruct H1 as [-> | ->], H2 as [-> | ->], H3 as [-> | ->], H4 as [-> | ->],
             H5 as [-> | ->];
      (eapply strip_frame; [done|done|reflexivity|reflexivity|reflexivity
                           |reflexivity|reflexivity]).
  - destruct word as [|c1 [|c2 word]]; try done.
    simpl in Hw. injection Hw as H1. apply ascii_lower_inv in H1.
    destruct H1 as [-> | ->];
      (eapply strip_frame; [done|done|reflexivity|reflexivity|reflexivity
                           |reflexivity|reflexivity]).
Qed.

Lemma strip_white_space :
  strip (" c0ffee" ++ utf8 [194; 160]%N) = "c0ffee"
  /\ strip (utf8 [226; 128; 168; 9]%N ++ "1" ++ utf8 [194; 133; 10]%N) = "1"
  /\ strip (utf8 [227; 128; 128]%N) = ""
  /\ strip " a b " = "a b".
Proof. by vm_compute. Qed.

End Strip.

(** ** Redemption *)

Section Redemption.

Implicit Types (d : db) (r : RewardToken.t) (rq : request) (s : session).

Lemma load_user_Some d uid u :
  user d !! uid = Some u -> load_user (Some uid) d = Some (uid, u).
Proof. intros H. unfold load_user. by rewrite H. Qed.

(** A request for a token, by a logged-in caller, reaches the commit phase
    with that token's row in its session. *)
Lemma query_finds d rq tok r uid u :
  token_of rq = tok -> tok <> "" -> caller_of rq = Some uid ->
  user d !! uid = Some u -> first_by_token tok d = Some r ->
  match rq with
  | RedeemReward a t => redeem_reward_query a t d
  | ScanPost a f => scan_query a f d
  end = inr (mksession uid u r).
Proof.
  intros Htok Hne Hcaller Hu Hr. destruct rq as [a t|a f]; simpl in *; subst a.
  - unfold redeem_reward_query. rewrite (load_user_Some _ _ _ Hu). subst t.
    by rewrite Hr.
  - unfold scan_query. rewrite (load_user_Some _ _ _ Hu). rewrite Htok.
    destruct (String.eqb_spec tok "") as [->|_]; [done|]. by rewrite Hr.
Qed.

Lemma handle_unfold d rq now :
  handle rq now d =
  match match rq with
        | RedeemReward a t => redeem_reward_query a t d
        | ScanPost a f => scan_query a f d
        end with
  | inl resp => (resp, d)
  | inr s => match rq with
             | RedeemReward _ _ => redeem_reward_finish s now d
             | ScanPost _ _ => scan_finish s now d
             end
  end.
Proof. by destruct rq. Qed.

(** A redeemed token: the caller is told so and nothing is written. *)
Lemma handle_redeemed d rq tok r uid now :
  token_of rq = tok -> tok <> "" -> caller_of rq = Some uid ->
  is_Some (user d !! uid) -> first_by_token tok d = Some r ->
  RewardToken.redeemed r = true ->
  (handle rq now d).2 = d /\ outcome_of (handle rq now d).1 = AlreadyRedeemed.
Proof.
  intros Htok Hne Hcaller [u Hu] Hr Hred.
  rewrite handle_unfold, (query_finds d rq tok r uid u) by done.
  destruct rq; unfold redeem_reward_finish, scan_finish; simpl; by rewrite Hred.
Qed.

(** An unredeemed token: the caller is credited and the commit is made. *)
Lemma handle_unredeemed d rq tok r uid u now :
  token_of rq = tok -> tok <> "" -> caller_of rq = Some uid ->
  user d !! uid = Some u -> first_by_token tok d = Some r ->
  RewardToken.redeemed r = false ->
  (handle rq now d).2 = commit_redemption (mksession uid u r) now d /\
  outcome_of (handle rq now d).1 = Credited (RewardToken.points r).
Proof.
  intros Htok Hne Hcaller Hu Hr Hred.
  rewrite handle_unfold, (query_finds d rq tok r uid u) by done.
  destruct rq; unfold redeem_reward_finish, scan_finish; simpl; by rewrite Hred.
Qed.

Lemma find_token_commit rows tok r now uid :
  List.find (fun x => String.eqb (RewardToken.token x) tok) rows = Some r ->
  List.find (fun x => String.eqb (RewardToken.token x) tok)
    (map (fun x => if (RewardToken.id x =? RewardToken.id r)%Z
                   then RewardToken.redeem now uid x else x) rows)
  = Some (RewardToken.redeem now uid r).
Proof.
  induction rows as [|x rows IH]; simpl; [done|].
  destruct (String.eqb (RewardToken.token x) tok) eqn:Hx.
  - intros [= ->]. rewrite Z.eqb_refl. simpl. by rewrite Hx.
  - intros Hfind. destruct (RewardToken.id x =? RewardToken.id r)%Z; simpl;
      rewrite Hx; by apply IH.
Qed.

Lemma first_by_token_commit d tok r uid u now :
  first_by_token tok d = Some r ->
  first_by_token tok (commit_redemption (mksession uid u r) now d)
  = Some (RewardToken.redeem now uid r).
Proof. unfold first_by_token, commit_redemption. simpl. apply find_token_commit. Qed.

Lemma points_of_commit d r uid u now uid' :
  user d !! uid = Some u ->
  points_of uid' (commit_redemption (mksession uid u r) now d)
  = points_of uid' d + (if decide (uid' = uid) then RewardToken.points r else 0).
Proof.
  intros Hu. unfold points_of, commit_redemption. simpl.
  destruct (decide (uid' = uid)) as [->|Hne].
  - rewrite lookup_alter_eq, Hu. simpl. done.
  - rewrite lookup_alter_ne by done. lia.
Qed.

Lemma user_commit_is_Some d s now uid :
  is_Some (user d !! uid) -> is_Some (user (commit_redemption s now d) !! uid).
Proof.
  unfold commit_redemption. simpl. intros [u Hu].
  destruct (decide (current_user_id s = uid)) as [<-|Hne].
  - rewrite lookup_alter_eq, Hu. by eexists.
  - rewrite lookup_alter_ne by done. by eexists.
Qed.

End Redemption.

Section RedemptionInTurn.

Implicit Types (d : db) (r : RewardToken.t) (rq : request).

Lemma redeems_spec tok d c :
  redeems tok d c = true ->
  token_of c.1 = tok /\ exists uid, caller_of c.1 = Some uid /\ is_Some (user d !! uid).
Proof.
  unfold redeems. intros [Ht Hc]%andb_true_iff. split.
  - by apply String.eqb_eq.
  - destruct (caller_of c.1) as [uid|]; [|done]. exists uid. split; [done|].
    destruct (user d !! uid); [by eexists|done].
Qed.

Lemma redeems_commit tok d s now c :
  redeems tok d c = true -> redeems tok (commit_redemption s now d) c = true.
Proof.
  unfold redeems. intros [Ht Hc]%andb_true_iff. rewrite Ht.
  destruct (caller_of c.1) as [uid|]; [|done].
  destruct (user d !! uid) as [u|] eqn:Hu; [|done].
  destruct (user_commit_is_Some d s now uid) as [u' Hu']; [by eauto|].
  by rewrite Hu'.
Qed.

(** Calls that arrive once the token is redeemed are all turned away, and
    the database stays as it is. *)
Lemma serve_all_redeemed calls d tok r :
  tok <> "" -> first_by_token tok d = Some r -> RewardToken.redeemed r = true ->
  forallb (redeems tok d) calls = true ->
  (serve_all calls d).2 = d /\
  map outcome_of (serve_all calls d).1 = repeat AlreadyRedeemed (length calls).
Proof.
  intros Hne Hr Hred. induction calls as [|[rq now] calls IH]; simpl; [done|].
  intros [Hc Hcalls]%andb_true_iff.
  destruct (redeems_spec _ _ _ Hc) as (Htok & uid & Hcaller & Hu). simpl in *.
  destruct (handle_redeemed d rq tok r uid now) as [Hd Hout]; try done.
  destruct (handle rq now d) as [resp d1]. simpl in *. subst d1.
  destruct (IH Hcalls) as [IHd IHout].
  destruct (serve_all calls d) as [resps d2]. simpl in *. by rewrite Hout, IHout.
Qed.

End RedemptionInTurn.

(** C2. A redeem call for a token that is already redeemed, by a logged-in
    caller through either redeeming route, is answered "already used" (the
    warning flash of its route), which is not the answer an unknown token
    gets (404, or the "not found" flash); the database it leaves is the one
    it found: every balance, and the token's [redeemed_at] and
    [redeemed_by_id], are as before. *)
Theorem redeem_again_is_reported_and_writes_nothing
    (d : db) (rq : request) (tok : string) (r : RewardToken.t) (uid now : Z) :
  token_of rq = tok -> tok <> "" -> caller_of rq = Some uid ->
  is_Some (user d !! uid) -> first_by_token tok d = Some r ->
  RewardToken.redeemed r = true ->
  let '(resp, d') := handle rq now d in
  resp = match rq with
         | RedeemReward _ _ => redirect "dashboard" [("warning", RedeemCodeAlreadyUsed)]
         | ScanPost _ _ => render_template "scan.html" [("warning", ScanCodeAlreadyUsed)]
         end /\
  outcome_of resp = AlreadyRedeemed /\
  d' = d /\
  (forall uid', points_of uid' d' = points_of uid' d) /\
  first_by_token tok d' = Some r /\
  (forall rq', caller_of rq' = Some uid -> token_of rq' <> "" ->
     first_by_token (token_of rq') d = None ->
     outcome_of (handle rq' now d).1 = NotFound /\
     outcome_of (handle rq' now d).1 <> outcome_of resp).
Proof.
  intros Htok Hne Hcaller [u Hu] Hr Hred.
  assert (Hq := query_finds d rq tok r uid u Htok Hne Hcaller Hu Hr).
  assert (Hh := handle_unfold d rq now). rewrite Hq in Hh.
  assert (handle rq now d =
          (match rq with
           | RedeemReward _ _ => redirect "dashboard" [("warning", RedeemCodeAlreadyUsed)]
           | ScanPost _ _ => render_template "scan.html" [("warning", ScanCodeAlreadyUsed)]
           end, d)) as ->.
  { rewrite Hh. destruct rq; unfold redeem_reward_finish, scan_finish; simpl;
      by rewrite Hred. }
  assert (forall rq', caller_of rq' = Some uid -> token_of rq' <> "" ->
            first_by_token (token_of rq') d = None ->
            outcome_of (handle rq' now d).1 = NotFound) as Hunknown.
  { intros rq' Hc' Hne' Hnone. destruct rq' as [a t|a f]; simpl in *; subst a.
    - unfold redeem_reward, redeem_reward_query.
      by rewrite (load_user_Some _ _ _ Hu), Hnone.
    - unfold scan_post, scan_query. rewrite (load_user_Some _ _ _ Hu).
      destruct (String.eqb_spec (strip (default "" f)) "") as [E|_]; [done|].
      by rewrite Hnone. }
  repeat split; try done.
  - by destruct rq.
  - by apply Hunknown.
  - rewrite Hunknown by done. by destruct rq.
Qed.

Lemma redeem_again_witness :
  let '(resp, d') := handle (ScanPost (Some 8) (Some (" feed" ++ utf8 [194; 160]%N)))
                            2000 spent_db in
  resp = render_template "scan.html" [("warning", ScanCodeAlreadyUsed)] /\ d' = spent_db.
Proof.
  pose proof (redeem_again_is_reported_and_writes_nothing
                spent_db (ScanPost (Some 8) (Some (" feed" ++ utf8 [194; 160]%N))) "feed"
                (RewardToken.redeem 1500 7 (RewardToken.new 1 "feed" "paper" 50 1000))
                8 2000) as H.
  destruct (handle (ScanPost (Some 8) (Some (" feed" ++ utf8 [194; 160]%N))) 2000 spent_db)
    as [resp d'].
  destruct H as (H1 & _ & H3 & _).
  - reflexivity.
  - discriminate.
  - reflexivity.
  - vm_compute. eauto.
  - reflexivity.
  - reflexivity.
  - split; assumption.
Defined.

(** The same through the other route, by the token in the URL. *)
Lemma redeem_again_by_url :
  handle (RedeemReward (Some 8) "feed") 2000 spent_db
  = (redirect "dashboard" [("warning", RedeemCodeAlreadyUsed)], spent_db).
Proof. reflexivity. Qed.

(** C1, as the code has it: when the calls that redeem one unredeemed token
    are served one after another, each from its query to its commit before
    the next begins, the first is credited the token's points and flips the
    record to redeemed by its caller at its time; every later call is told
    the token is already used; and over the whole run the first caller's
    balance grows by the token's points, once, and no other balance moves. *)
Theorem redeem_in_turn_exactly_once
    (d : db) (tok : string) (r : RewardToken.t)
    (rq0 : request) (now0 uid0 : Z) (rest : list (request * Z)) :
  tok <> "" -> first_by_token tok d = Some r -> RewardToken.redeemed r = false ->
  caller_of rq0 = Some uid0 ->
  forallb (redeems tok d) ((rq0, now0) :: rest) = true ->
  let '(resps, d') := serve_all ((rq0, now0) :: rest) d in
  map outcome_of resps
    = Credited (RewardToken.points r) :: repeat AlreadyRedeemed (length rest) /\
  (forall uid, points_of uid d'
               = points_of uid d
                 + (if decide (uid = uid0) then RewardToken.points r else 0)) /\
  first_by_token tok d' = Some (RewardToken.redeem now0 uid0 r).
Proof.
  intros Hne Hr Hred Hcaller. simpl. intros [Hc Hrest]%andb_true_iff.
  destruct (redeems_spec _ _ _ Hc) as (Htok & uid & Hcaller' & [u Hu]). simpl in *.
  assert (uid = uid0) as -> by congruence.
  destruct (handle_unredeemed d rq0 tok r uid0 u now0) as [Hd Hout]; try done.
  destruct (handle rq0 now0 d) as [resp d1]. simpl in *. subst d1.
  set (d1 := commit_redemption (mksession uid0 u r) now0 d) in *.
  assert (first_by_token tok d1 = Some (RewardToken.redeem now0 uid0 r)) as Hr1
    by by apply first_by_token_commit.
  destruct (serve_all_redeemed rest d1 tok _ Hne Hr1 eq_refl) as [Hd2 Hout2].
  { unfold d1. clear -Hrest. induction rest as [|c rest IH]; simpl in *; [done|].
    apply andb_true_iff in Hrest as [Hc Hrest].
    by rewrite redeems_commit, IH. }
  destruct (serve_all rest d1) as [resps d2]. simpl in *. subst d2.
  split; [by rewrite Hout, Hout2|]. split; [|done].
  intros uid. unfold d1. by apply points_of_commit.
Qed.

Lemma redeem_in_turn_witness :
  let '(resps, d') :=
    serve_all [(RedeemReward (Some 1) "c0ffee", 2000);
               (ScanPost (Some 2) (Some " c0ffee "), 2001);
               (RedeemReward (Some 1) "c0ffee", 2002)] race_db in
  map outcome_of resps = [Credited 100; AlreadyRedeemed; AlreadyRedeemed] /\
  points_of 1 d' = 100 /\ points_of 2 d' = 30.
Proof.
  pose proof (redeem_in_turn_exactly_once race_db "c0ffee"
                (RewardToken.new 1 "c0ffee" "bottle" 100 1000)
                (RedeemReward (Some 1) "c0ffee") 2000 1
                [(ScanPost (Some 2) (Some " c0ffee "), 2001);
                 (RedeemReward (Some 1) "c0ffee", 2002)]) as H.
  destruct (serve_all _ race_db) as [resps d'].
  destruct H as (H1 & H2 & _).
  - discriminate.
  - reflexivity.
  - reflexivity.
  - reflexivity.
  - vm_compute. reflexivity.
  - split; [exact H1|]. split.
    + rewrite (H2 1). reflexivity.
    + rewrite (H2 2). reflexivity.
Defined.

(** C1, as the claim states it, fails: two users redeem the same token, both
    handlers run their query before either commits, both are credited. *)
Lemma redeem_race_credits_twice :
  ~ concurrent_exactly_once race_db "c0ffee" race_callers race_schedule.
Proof.
  unfold concurrent_exactly_once. intros H.
  destruct H as [H _]; [reflexivity|]. vm_compute in H. discriminate H.
Qed.

(** What the race leaves behind: two credits of 100 points for one token,
    and the record rewritten by the second commit. *)
Lemma redeem_race_outcome :
  let cfg := run_schedule race_schedule
               (map (fun c : Z * Z => Accepted (RedeemReward (Some c.1) "c0ffee") c.2)
                    race_callers, race_db) in
  map outcome_of (omap response_of cfg.1) = [Credited 100; Credited 100] /\
  points_of 1 cfg.2 = points_of 1 race_db + 100 /\
  points_of 2 cfg.2 = points_of 2 race_db + 100 /\
  first_by_token "c0ffee" cfg.2
  = Some (RewardToken.redeem 2001 2 (RewardToken.new 1 "c0ffee" "bottle" 100 1000)).
Proof. vm_compute. repeat split; reflexivity. Qed.

(** ** The invariant of the token records *)

Section Invariant.

Implicit Types (d : db) (r : RewardToken.t) (rq : request) (s : session).

Lemma db_ok_spec d :
  db_ok d = true <->
  Forall (fun r => token_ok r = true) (reward_token d)
  /\ NoDup (RewardToken.id <$> reward_token d).
Proof.
  unfold db_ok. rewrite andb_true_iff, forallb_forall, Forall_forall.
  rewrite bool_decide_eq_true. split; intros [H1 H2]; split; try done.
  - intros x Hx. apply H1. by apply list_elem_of_In.
  - intros x Hx. apply H1. by apply list_elem_of_In.
Qed.

Lemma token_ok_redeem now uid r : token_ok (RewardToken.redeem now uid r) = true.
Proof. done. Qed.

(** The commit keeps the primary keys, and leaves every row in its
    invariant whatever session it comes from. *)
Lemma commit_redemption_ok s now d :
  db_ok d = true -> db_ok (commit_redemption s now d) = true.
Proof.
  rewrite !db_ok_spec. intros [Hrows Hids]. unfold commit_redemption. simpl. split.
  - apply Forall_fmap. eapply Forall_impl; [exact Hrows|]. intros r Hr. simpl.
    by destruct (RewardToken.id r =? _)%Z.
  - rewrite <- list_fmap_compose.
    erewrite list_fmap_ext; [exact Hids|]. intros i r _. simpl.
    by destruct (RewardToken.id r =? _)%Z.
Qed.

Lemma worker_step_ok w d :
  db_ok d = true -> db_ok (worker_step w d).2 = true.
Proof.
  intros Hok. destruct w as [rq now|rq s now|resp]; simpl; [| |done].
  - by destruct rq; match goal with |- context [match ?q with _ => _ end] =>
                      destruct q end.
  - destruct rq; unfold redeem_reward_finish, scan_finish;
      destruct (RewardToken.redeemed (reward s)); simpl; try done;
      by apply commit_redemption_ok.
Qed.

Lemma first_by_token_lookup tok d r :
  first_by_token tok d = Some r -> exists j, reward_token d !! j = Some r.
Proof.
  unfold first_by_token. intros [Hin _]%find_some.
  apply list_elem_of_In in Hin. by apply list_elem_of_lookup in Hin.
Qed.

(** With distinct primary keys the commit rewrites the session's row and
    no other. *)
Lemma commit_redemption_lookup d uid u r0 now j i r :
  NoDup (RewardToken.id <$> reward_token d) ->
  reward_token d !! j = Some r0 -> reward_token d !! i = Some r ->
  reward_token (commit_redemption (mksession uid u r0) now d) !! i
  = Some (if decide (i = j) then RewardToken.redeem now uid r0 else r).
Proof.
  intros Hids Hj Hi. unfold commit_redemption. simpl.
  rewrite list_lookup_fmap, Hi. simpl. f_equal.
  destruct (decide (i = j)) as [->|Hne].
  - assert (r = r0) as -> by congruence. by rewrite Z.eqb_refl.
  - destruct (Z.eqb_spec (RewardToken.id r) (RewardToken.id r0)) as [E|_]; [|done].
    exfalso. apply Hne. eapply NoDup_lookup; [exact Hids| |].
    + rewrite list_lookup_fmap, Hi. reflexivity.
    + rewrite list_lookup_fmap, Hj. simpl. by rewrite E.
Qed.

Lemma next_id_fresh rows r :
  r ∈ rows -> (RewardToken.id r < next_id rows)%Z.
Proof.
  unfold next_id. induction rows as [|x rows IH]; simpl.
  - by intros ?%elem_of_nil.
  - intros [->|Hin]%elem_of_cons; [lia|]. specialize (IH Hin). lia.
Qed.

Lemma query_inr d rq s :
  match rq with
  | RedeemReward a t => redeem_reward_query a t d
  | ScanPost a f => scan_query a f d
  end = inr s ->
  user d !! current_user_id s = Some (current_user s)
  /\ exists tok, first_by_token tok d = Some (reward s).
Proof.
  destruct rq as [a t|a f]; unfold redeem_reward_query, scan_query, load_user;
    destruct a as [uid|]; try done;
    destruct (user d !! uid) as [u|] eqn:Hu; try done.
  - destruct (first_by_token t d) as [r|] eqn:Hr; [|done].
    intros [= <-]. simpl. eauto.
  - destruct (String.eqb _ ""); [done|].
    destruct (first_by_token _ d) as [r|] eqn:Hr; [|done].
    intros [= <-]. simpl. eauto.
Qed.

Section Issuance.
Context {image : Type} (qrcode_make : string -> image).

(** [api_reward] either refuses and writes nothing, or appends one
    unredeemed row priced by the tariff and stores its QR image. *)
Lemma api_reward_cases API_TOKEN api_key body uuid now host d (q : qr_dir image) :
  let '(resp, d', q') := api_reward qrcode_make API_TOKEN api_key body uuid now host d q in
  (d' = d /\ q' = q /\ forall b, resp <> jsonify 200 b)
  \/ (exists material,
        in_tariff material = true /\ first_by_token uuid d = None /\
        api_key = Some API_TOKEN /\
        d' = {| reward_token :=
                  reward_token d
                  ++ [RewardToken.new (next_id (reward_token d)) uuid material
                                      (tariff material) now];
                user := user d |} /\
        q' = build_qr_code qrcode_make uuid (url_for_reward_details host uuid) q /\
        resp = jsonify 200 [("token", JStr uuid);
                            ("material", JStr material);
                            ("points", JNum (tariff material));
                            ("redeem_url", JStr (url_for_reward_details host uuid));
                            ("qr_url", JStr (url_for_serve_qr host uuid))]).
Proof.
  unfold api_reward.
  destruct api_key as [k|]; simpl; [|by left].
  destruct (String.eqb_spec k API_TOKEN) as [->|Hk]; simpl; [|by left].
  repeat case_match; simplify_eq; try (by left);
    right; eexists; split_and!; try done;
    by apply negb_false_iff.
Qed.

End Issuance.

End Invariant.

(** C3. Every operation of the reward flow (issuing, viewing, redeeming by
    either route, opening the scan page, fetching the QR image) keeps the
    database inside the invariant: an unredeemed record has neither
    [redeemed_at] nor [redeemed_by_id], a redeemed record has both.  A record
    that is redeemed stays exactly as it is, so [redeemed] never goes back to
    false; and a record that an operation turns from unredeemed to redeemed
    gets [redeemed_at] and [redeemed_by_id] in that same operation, which
    also credits the record's points to the redeeming user. *)
Theorem every_operation_keeps_token_invariant
    (image : Type) (qrcode_make : string -> image) (API_TOKEN : string)
    (rq : http_request) (env : environment) (d : db) (q : qr_dir image) :
  db_ok d = true ->
  let '(resp, d', q') := dispatch qrcode_make API_TOKEN rq env d q in
  db_ok d' = true /\
  forall i r, reward_token d !! i = Some r ->
    exists r', reward_token d' !! i = Some r' /\
      (RewardToken.redeemed r = true -> r' = r) /\
      (RewardToken.redeemed r = false -> RewardToken.redeemed r' = true ->
         exists uid,
           r' = RewardToken.redeem (env_utcnow env) uid r /\
           is_credited resp = true /\
           points_of uid d' = points_of uid d + RewardToken.points r).
Proof.
  intros Hok.
  assert (forall resp (q' : qr_dir image),
            let '(resp0, d', q0) := (resp, d, q') in
            db_ok d' = true /\
            forall i r, reward_token d !! i = Some r ->
              exists r', reward_token d' !! i = Some r' /\
                (RewardToken.redeemed r = true -> r' = r) /\
                (RewardToken.redeemed r = false -> RewardToken.redeemed r' = true ->
                   exists uid,
                     r' = RewardToken.redeem (env_utcnow env) uid r /\
                     is_credited resp0 = true /\
                     points_of uid d' = points_of uid d + RewardToken.points r))
    as Hsame.
  { intros resp q'. split; [done|]. intros i r Hi. exists r.
    split; [done|]. split; [done|]. intros Hf Ht. congruence. }
  destruct rq as [api_key body|token|rq|user_id|token]; simpl.
  - (* api_reward *)
    pose proof (api_reward_cases qrcode_make API_TOKEN api_key body
                  (env_uuid4_hex env) (env_utcnow env) (env_host_url env) d q) as Hc.
    destruct (api_reward _ _ _ _ _ _ _ _ _) as [[resp d'] q'].
    destruct Hc as [(-> & -> & _)|(material & Hm & Hfresh & _ & -> & _ & _)];
      [apply (Hsame resp q)|].
    apply db_ok_spec in Hok as [Hrows Hids]. split.
    + apply db_ok_spec. simpl. split.
      * apply Forall_app. split; [done|]. by repeat constructor.
      * rewrite fmap_app. simpl. apply NoDup_app. split; [done|]. split.
        -- intros x Hx [->|[]%elem_of_nil]%elem_of_cons.
           apply list_elem_of_fmap in Hx as (r & Hid & Hr).
           apply next_id_fresh in Hr. lia.
        -- apply NoDup_singleton.
    + intros i r Hi. exists r. simpl. split; [by apply lookup_app_l_Some|].
      split; [done|]. intros Hf Ht. congruence.
  - (* reward_details *)
    unfold reward_details. destruct (first_by_token token d); apply (Hsame _ q).
  - (* redeem_reward, scan *)
    rewrite handle_unfold.
    destruct (match rq with
              | RedeemReward a t => redeem_reward_query a t d
              | ScanPost a f => scan_query a f d
              end) as [resp|s] eqn:Hq; [apply (Hsame _ q)|].
    apply query_inr in Hq as [Hu [tok Hr]].
    destruct s as [uid u r0]. simpl in *.
    destruct (first_by_token_lookup _ _ _ Hr) as [j Hj].
    assert (let '(resp, d') :=
              match rq with
              | RedeemReward _ _ => redeem_reward_finish (mksession uid u r0) (env_utcnow env) d
              | ScanPost _ _ => scan_finish (mksession uid u r0) (env_utcnow env) d
              end in
            (RewardToken.redeemed r0 = true /\ d' = d)
            \/ (RewardToken.redeemed r0 = false /\ is_credited resp = true /\
                d' = commit_redemption (mksession uid u r0) (env_utcnow env) d)) as Hfin.
    { destruct rq; unfold redeem_reward_finish, scan_finish; simpl;
        destruct (RewardToken.redeemed r0); simpl; auto. }
    destruct (match rq with
              | RedeemReward _ _ => redeem_reward_finish _ _ d
              | ScanPost _ _ => scan_finish _ _ d
              end) as [resp d'].
    destruct Hfin as [[_ ->]|(Hred & Hcred & ->)]; [apply (Hsame resp q)|].
    split; [by apply commit_redemption_ok|].
    apply db_ok_spec in Hok as [Hrows Hids].
    intros i r Hi. eexists. split; [by eapply commit_redemption_lookup|].
    destruct (decide (i = j)) as [->|Hne].
    + assert (r = r0) as -> by congruence. split; [congruence|].
      intros _ _. exists uid. split; [done|]. split; [done|].
      rewrite (points_of_commit d r0 uid u _ uid Hu). by rewrite decide_True.
    + split; [done|]. intros Hf Ht. congruence.
  - (* scan, GET *)
    unfold scan_get. destruct (load_user user_id d); apply (Hsame _ q).
  - (* serve_qr *)
    destruct (serve_qr _ _ _ _ _) as [resp q']. apply (Hsame resp q').
Qed.

Lemma token_invariant_witness :
  let '(resp, d', q') :=
    dispatch (fun url : string => url) "changeme"
      (POST_redeeming (RedeemReward (Some 2) "c0ffee"))
      (mkenv "ab12" 3000 "http://localhost:5000") race_db (mkqr ∅ []) in
  db_ok d' = true.
Proof.
  pose proof (every_operation_keeps_token_invariant string (fun url => url) "changeme"
                (POST_redeeming (RedeemReward (Some 2) "c0ffee"))
                (mkenv "ab12" 3000 "http://localhost:5000") race_db (mkqr ∅ [])) as H.
  destruct (dispatch _ _ _ _ _ _) as [[resp d'] q'].
  apply H. vm_compute. reflexivity.
Defined.

(** ** Issuance *)

Section IssuanceProofs.
Context {image : Type} (qrcode_make : string -> image).

Lemma in_tariff_spec material :
  in_tariff material = true <-> material = "bottle" \/ material = "paper".
Proof.
  unfold in_tariff. rewrite orb_true_iff, !String.eqb_eq. tauto.
Qed.

Lemma find_app_None {A} (f : A -> bool) (l1 l2 : list A) :
  List.find f l1 = None -> List.find f (l1 ++ l2) = List.find f l2.
Proof.
  induction l1 as [|x l1 IH]; simpl; [done|]. by destruct (f x).
Qed.

Lemma dict_get_Some_truthy key members v :
  dict_get key members = Some v -> truthy (JObj members) = true.
Proof. by destruct members. Qed.

(** An authorized request whose body is an object naming a material of the
    tariff (in any letter case) is granted, with the tariff's points. *)
Lemma api_reward_granted API_TOKEN members s uuid now host d (q : qr_dir image) :
  dict_get "material" members = Some (JStr s) ->
  in_tariff (lower s) = true ->
  first_by_token uuid d = None ->
  api_reward qrcode_make API_TOKEN (Some API_TOKEN) (Some (JObj members)) uuid now host d q
  = (jsonify 200 [("token", JStr uuid);
                  ("material", JStr (lower s));
                  ("points", JNum (tariff (lower s)));
                  ("redeem_url", JStr (url_for_reward_details host uuid));
                  ("qr_url", JStr (url_for_serve_qr host uuid))],
     {| reward_token :=
          reward_token d
          ++ [RewardToken.new (next_id (reward_token d)) uuid (lower s)
                              (tariff (lower s)) now];
        user := user d |},
     build_qr_code qrcode_make uuid (url_for_reward_details host uuid) q).
Proof.
  intros Hm Hin Hfresh. unfold api_reward.
  rewrite String.eqb_refl. simpl negb. cbv iota.
  rewrite (dict_get_Some_truthy _ _ _ Hm), Hm.
  assert (truthy (JStr s) = true) as ->.
  { destruct s; [done|]. done. }
  by rewrite Hin, Hfresh.
Qed.

(** A material that is there but is no string makes [.lower()] raise:
    Flask answers 500, and nothing is written. *)
Lemma api_reward_material_not_a_string API_TOKEN members v uuid now host d (q : qr_dir image) :
  dict_get "material" members = Some v -> truthy v = true ->
  (forall s, v <> JStr s) ->
  api_reward qrcode_make API_TOKEN (Some API_TOKEN) (Some (JObj members)) uuid now host d q
  = (internal_server_error "AttributeError", d, q).
Proof.
  intros Hm Hv Hs. unfold api_reward.
  rewrite String.eqb_refl. simpl negb. cbv iota.
  rewrite (dict_get_Some_truthy _ _ _ Hm), Hm, Hv.
  destruct v; try done. by destruct (Hs s).
Qed.

Lemma api_reward_unauthorized API_TOKEN api_key body uuid now host d (q : qr_dir image) :
  api_key <> Some API_TOKEN ->
  api_reward qrcode_make API_TOKEN api_key body uuid now host d q
  = (jsonify 401 [("error", JStr "unauthorized")], d, q).
Proof.
  intros Hkey. unfold api_reward. destruct api_key as [k|]; simpl; [|done].
  destruct (String.eqb_spec k API_TOKEN) as [->|_]; done.
Qed.

Lemma api_reward_outside_tariff API_TOKEN members uuid now host d (q : qr_dir image) :
  (dict_get "material" members = None
   \/ exists s, dict_get "material" members = Some (JStr s)
                /\ in_tariff (lower s) = false) ->
  api_reward qrcode_make API_TOKEN (Some API_TOKEN) (Some (JObj members)) uuid now host d q
  = (jsonify 400 [("error", JStr "material must be 'bottle' or 'paper'")], d, q).
Proof.
  intros Hm. unfold api_reward.
  rewrite String.eqb_refl. simpl negb. cbv iota.
  destruct Hm as [Hm|(s & Hm & Hout)].
  - destruct (truthy (JObj members)); [rewrite Hm|]; done.
  - rewrite (dict_get_Some_truthy _ _ _ Hm), Hm.
    destruct (truthy (JStr s)); [by rewrite Hout|done].
Qed.

End IssuanceProofs.

(** C4. The points of an issued reward are fixed by the material alone: an
    authorized request naming "bottle" (in any letter case) is answered with
    100 points and stores a record of 100 points, one naming "paper" with 50
    and 50, whatever the state of the registry and of the QR directory, and
    whatever else the request body carries: no member of the body other than
    "material" is read. *)
Theorem api_reward_points_fixed_by_tariff
    (image : Type) (qrcode_make : string -> image) (API_TOKEN : string)
    (members : list (string * json)) (s : string) (p : Z)
    (uuid : string) (now : Z) (host : string) (d : db) (q : qr_dir image) :
  dict_get "material" members = Some (JStr s) ->
  (lower s = "bottle" /\ p = 100) \/ (lower s = "paper" /\ p = 50) ->
  first_by_token uuid d = None ->
  let '(resp, d', q') :=
    api_reward qrcode_make API_TOKEN (Some API_TOKEN) (Some (JObj members))
               uuid now host d q in
  (exists body, resp = jsonify 200 body
                /\ dict_get "points" body = Some (JNum p)
                /\ dict_get "material" body = Some (JStr (lower s)))
  /\ reward_token d'
     = (reward_token d
        ++ [RewardToken.new (next_id (reward_token d)) uuid (lower s) p now])%list
  /\ first_by_token uuid d'
     = Some (RewardToken.new (next_id (reward_token d)) uuid (lower s) p now).
Proof.
  intros Hm Hp Hfresh.
  assert (in_tariff (lower s) = true /\ tariff (lower s) = p) as [Hin Htar].
  { destruct Hp as [[-> ->]|[-> ->]]; done. }
  rewrite (api_reward_granted qrcode_make API_TOKEN members s uuid now host d q Hm Hin Hfresh).
  rewrite Htar. split; [eexists; split; [reflexivity|]; by split|].
  split; [done|].
  unfold first_by_token in *. simpl. rewrite find_app_None by done. simpl.
  by rewrite String.eqb_refl.
Qed.

Lemma api_reward_points_witness :
  let '(resp, d', q') :=
    api_reward (fun url : string => url) "changeme" (Some "changeme")
      (Some (JObj [("material", JStr "Bottle"); ("points", JNum 9999)]))
      "ab12" 3000 "http://localhost:5000" race_db (mkqr ∅ []) in
  exists body, resp = jsonify 200 body /\ dict_get "points" body = Some (JNum 100).
Proof.
  pose proof (api_reward_points_fixed_by_tariff string (fun url => url) "changeme"
                [("material", JStr "Bottle"); ("points", JNum 9999)] "Bottle" 100
                "ab12" 3000 "http://localhost:5000" race_db (mkqr ∅ [])) as H.
  destruct (api_reward _ _ _ _ _ _ _ _ _) as [[resp d'] q'].
  destruct H as [(body & H1 & H2 & _) _].
  - reflexivity.
  - left. split; reflexivity.
  - reflexivity.
  - exists body. split; assumption.
Defined.

(** C5, at a request the endpoint can receive: the key is the configured
    one and the JSON body is {"material": 5}.  The material is outside the
    tariff, and the answer is not the 400 of lines 417-418: [.lower()] of
    line 416 is called on the number, nothing handles the AttributeError,
    and the request ends in the 500 of an internal error.  No record is
    created. *)
Theorem api_reward_number_material_breaks
    (image : Type) (qrcode_make : string -> image) (API_TOKEN : string)
    (uuid : string) (now : Z) (host : string) (d : db) (q : qr_dir image) :
  api_reward qrcode_make API_TOKEN (Some API_TOKEN)
             (Some (JObj [("material", JNum 5)])) uuid now host d q
  = (internal_server_error "AttributeError", d, q).
Proof. unfold api_reward. by rewrite String.eqb_refl. Qed.

(** The refusals of [api_reward].  It answers 401 exactly when the
    X-API-KEY header is missing or is not the configured token.  It answers
    400 exactly when the key is right and the body names no material of the
    tariff in one of these ways: there is no JSON body, or a falsy one; or
    the body is an object whose "material" is absent, or falsy, or a string
    that lowers to neither "bottle" nor "paper".  And whenever the answer is
    not the 200 of a grant, the registry and the QR directory are left as
    they were: no record is created. *)
Theorem api_reward_refusals_create_nothing
    (image : Type) (qrcode_make : string -> image) (API_TOKEN : string)
    (api_key : option string) (body : option json)
    (uuid : string) (now : Z) (host : string) (d : db) (q : qr_dir image) :
  let '(resp, d', q') :=
    api_reward qrcode_make API_TOKEN api_key body uuid now host d q in
  (resp = jsonify 401 [("error", JStr "unauthorized")] <-> api_key <> Some API_TOKEN) /\
  (resp = jsonify 400 [("error", JStr "material must be 'bottle' or 'paper'")]
   <-> api_key = Some API_TOKEN
       /\ (body = None
           \/ (exists j, body = Some j /\ truthy j = false)
           \/ exists members,
                body = Some (JObj members)
                /\ (dict_get "material" members = None
                    \/ (exists v, dict_get "material" members = Some v
                                  /\ truthy v = false)
                    \/ exists s, dict_get "material" members = Some (JStr s)
                                 /\ in_tariff (lower s) = false))) /\
  ((forall b, resp <> jsonify 200 b) -> d' = d /\ q' = q).
Proof.
  pose proof (api_reward_cases qrcode_make API_TOKEN api_key body uuid now host d q) as Hc.
  pose proof (api_reward_unauthorized qrcode_make API_TOKEN api_key body uuid now host d q)
    as H401.
  assert ((api_reward qrcode_make API_TOKEN api_key body uuid now host d q).1.1
          = jsonify 401 [("error", JStr "unauthorized")] -> api_key <> Some API_TOKEN)
    as H401'.
  { intros Hr ->. revert Hr. unfold api_reward. rewrite String.eqb_refl. simpl negb.
    cbv iota. repeat case_match; simpl; discriminate. }
  assert ((api_reward qrcode_make API_TOKEN api_key body uuid now host d q).1.1
          = jsonify 400 [("error", JStr "material must be 'bottle' or 'paper'")]
          <-> api_key = Some API_TOKEN
              /\ (body = None
                  \/ (exists j, body = Some j /\ truthy j = false)
                  \/ exists members,
                       body = Some (JObj members)
                       /\ (dict_get "material" members = None
                           \/ (exists v, dict_get "material" members = Some v
                                         /\ truthy v = false)
                           \/ exists s, dict_get "material" members = Some (JStr s)
                                        /\ in_tariff (lower s) = false))) as H400.
  { split.
    - unfold api_reward.
      destruct api_key as [k|]; simpl; [|done].
      destruct (String.eqb_spec k API_TOKEN) as [->|]; simpl; [|done].
      intros Hr. split; [done|].
      destruct body as [j|]; [|by left]. right.
      destruct (truthy j) eqn:Hj; [right|left; by eauto].
      destruct j as [| | | | |members]; try done.
      exists members. split; [done|].
      destruct (dict_get "material" members) as [v|]; [|by left]. right.
      destruct (truthy v) eqn:Hv; [right|left; by eauto].
      destruct v as [| | |s| |]; try done.
      exists s. split; [done|].
      destruct (in_tariff (lower s)) eqn:Hin; [|done].
      simpl in Hr. by destruct (first_by_token uuid d).
    - intros (-> & Hbody). unfold api_reward.
      rewrite String.eqb_refl. simpl negb. cbv iota.
      destruct Hbody as [->|[(j & -> & Hj)|(members & -> & Hm)]]; [done|by rewrite Hj|].
      destruct (truthy (JObj members)) eqn:Hj.
      + destruct Hm as [->|[(v & -> & ->)|(s & -> & Hin)]]; [done|done|].
        destruct (truthy (JStr s)); by rewrite ?Hin.
      + by destruct members. }
  destruct (api_reward _ _ _ _ _ _ _ _ _) as [[resp d'] q']. simpl in *.
  split; [|split].
  - split; [done|]. intros Hkey. by injection (H401 Hkey) as -> -> ->.
  - done.
  - destruct Hc as [(-> & -> & _)|(material & _ & _ & _ & _ & _ & ->)]; [done|].
    intros Hno. exfalso. by eapply Hno.
Qed.

Lemma api_reward_refusals_witness :
  let '(resp, d', q') :=
    api_reward (fun url : string => url) "changeme" (Some "guess")
      (Some (JObj [("material", JStr "bottle")]))
      "ab12" 3000 "http://localhost:5000" race_db (mkqr ∅ []) in
  resp = jsonify 401 [("error", JStr "unauthorized")] /\ d' = race_db /\ q' = mkqr ∅ [].
Proof.
  pose proof (api_reward_refusals_create_nothing string (fun url => url) "changeme"
                (Some "guess") (Some (JObj [("material", JStr "bottle")]))
                "ab12" 3000 "http://localhost:5000" race_db (mkqr ∅ [])) as H.
  destruct (api_reward _ _ _ _ _ _ _ _ _) as [[resp d'] q'].
  destruct H as (H1 & _ & H3).
  assert (resp = jsonify 401 [("error", JStr "unauthorized")]) as ->
    by (apply H1; discriminate).
  split; [reflexivity|]. apply H3. discriminate.
Defined.

(** ** QR images *)

Section QrProofs.
Context {image : Type} (qrcode_make : string -> image).

Implicit Types (d : db) (q : qr_dir image).

Lemma string_length_app (s1 s2 : string) :
  String.length (s1 ++ s2) = (String.length s1 + String.length s2)%nat.
Proof. induction s1 as [|a s1 IH]; simpl; [done|]. by rewrite IH. Qed.

Lemma qr_image_path_inj t1 t2 : qr_image_path t1 = qr_image_path t2 -> t1 = t2.
Proof.
  unfold qr_image_path. revert t2. induction t1 as [|a t1 IH]; intros [|b t2] H; simpl in *.
  - done.
  - apply (f_equal String.length) in H. simpl in H.
    rewrite string_length_app in H. simpl in H. lia.
  - apply (f_equal String.length) in H. simpl in H.
    rewrite string_length_app in H. simpl in H. lia.
  - injection H as -> H. f_equal. by apply IH.
Qed.

Lemma tokens_kept_refl d : tokens_kept d d.
Proof. by intros tok. Qed.

Lemma tokens_kept_commit s now d : tokens_kept d (commit_redemption s now d).
Proof.
  intros tok. unfold first_by_token, commit_redemption. simpl.
  induction (reward_token d) as [|x rows IH]; simpl; [done|].
  destruct (RewardToken.id x =? _)%Z; simpl;
    destruct (String.eqb (RewardToken.token x) tok); done.
Qed.

Lemma tokens_kept_handle rq now d : tokens_kept d (handle rq now d).2.
Proof.
  rewrite handle_unfold.
  destruct (match rq with
            | RedeemReward a t => redeem_reward_query a t d
            | ScanPost a f => scan_query a f d
            end) as [resp|s]; simpl; [apply tokens_kept_refl|].
  destruct rq; unfold redeem_reward_finish, scan_finish;
    destruct (RewardToken.redeemed (reward s)); simpl;
    auto using tokens_kept_refl, tokens_kept_commit.
Qed.

Lemma tokens_kept_append d row :
  tokens_kept d {| reward_token := reward_token d ++ [row]; user := user d |}.
Proof.
  intros tok. unfold first_by_token. simpl.
  induction (reward_token d) as [|x rows IH]; simpl; [done|].
  by destruct (String.eqb (RewardToken.token x) tok).
Qed.

Lemma qr_ok_mono d d' q : tokens_kept d d' -> qr_ok qrcode_make d q -> qr_ok qrcode_make d' q.
Proof.
  intros Hk (H1 & H2 & H3). split; [|done]. intros tok img Hf.
  destruct (H1 tok img Hf) as [Hin Himg]. split; [by apply Hk|done].
Qed.

(** Building the image of a token of the registry that has none yet. *)
Lemma qr_ok_build d q tok host :
  first_by_token tok d <> None -> files q !! qr_image_path tok = None ->
  qr_ok qrcode_make d q ->
  qr_ok qrcode_make d (build_qr_code qrcode_make tok (url_for_reward_details host tok) q).
Proof.
  intros Hin Hnone (H1 & H2 & H3). unfold build_qr_code. split; [|split]; simpl.
  - intros tok' img. destruct (decide (tok' = tok)) as [->|Hne].
    + rewrite lookup_insert_eq. intros [= <-]. eauto.
    + rewrite lookup_insert_ne; [apply H1|]. intros E. by apply qr_image_path_inj in E.
  - intros tok' [->|Hin']%elem_of_cons.
    + rewrite lookup_insert_eq. by eexists.
    + destruct (decide (tok' = tok)) as [->|Hne].
      * rewrite lookup_insert_eq. by eexists.
      * rewrite lookup_insert_ne; [by apply H2|].
        intros E. by apply qr_image_path_inj in E.
  - apply NoDup_cons. split; [|done]. intros Hin'.
    destruct (H2 tok Hin') as [img Himg]. congruence.
Qed.

Lemma build_keeps_files q tok url tok' img :
  files q !! qr_image_path tok = None ->
  files q !! qr_image_path tok' = Some img ->
  files (build_qr_code qrcode_make tok url q) !! qr_image_path tok' = Some img.
Proof.
  intros Hnone Hf. unfold build_qr_code. simpl.
  rewrite lookup_insert_ne; [done|]. intros E. apply qr_image_path_inj in E. congruence.
Qed.

Lemma serve_qr_cases tok host d q :
  (first_by_token tok d = None /\ serve_qr qrcode_make tok host d q = (abort 404, q))
  \/ (first_by_token tok d <> None /\
      ((is_Some (files q !! qr_image_path tok)
        /\ serve_qr qrcode_make tok host d q
           = (send_file (qr_image_path tok) "image/png", q))
       \/ (files q !! qr_image_path tok = None
           /\ serve_qr qrcode_make tok host d q
              = (send_file (qr_image_path tok) "image/png",
                 build_qr_code qrcode_make tok (url_for_reward_details host tok) q)))).
Proof.
  unfold serve_qr. destruct (first_by_token tok d) as [r|]; [right|by left].
  split; [done|]. destruct (files q !! qr_image_path tok) as [img|]; [left|right]; eauto.
Qed.

(** One request keeps the invariant of the QR directory, the tokens of the
    registry, and every image that is already filed. *)
Lemma dispatch_qr_ok API_TOKEN rq env d q :
  qr_ok qrcode_make d q ->
  qr_ok qrcode_make (dispatch qrcode_make API_TOKEN rq env d q).1.2
                    (dispatch qrcode_make API_TOKEN rq env d q).2
  /\ tokens_kept d (dispatch qrcode_make API_TOKEN rq env d q).1.2
  /\ forall tok img, files q !! qr_image_path tok = Some img ->
       files (dispatch qrcode_make API_TOKEN rq env d q).2 !! qr_image_path tok = Some img.
Proof.
  intros Hok. destruct rq as [api_key body|token|rq|user_id|token]; simpl.
  - pose proof (api_reward_cases qrcode_make API_TOKEN api_key body
                  (env_uuid4_hex env) (env_utcnow env) (env_host_url env) d q) as Hc.
    destruct (api_reward _ _ _ _ _ _ _ _ _) as [[resp d'] q']. simpl.
    destruct Hc as [(-> & -> & _)|(material & _ & Hfresh & _ & -> & -> & _)];
      [by auto using tokens_kept_refl|].
    assert (files q !! qr_image_path (env_uuid4_hex env) = None) as Hnone.
    { destruct (files q !! qr_image_path (env_uuid4_hex env)) as [img|] eqn:Hf; [|done].
      destruct Hok as (H1 & _). by destruct (H1 _ _ Hf) as [Hin _]. }
    split; [|split].
    + apply qr_ok_build; [|done|].
      * unfold first_by_token in *. simpl. rewrite find_app_None by done. simpl.
        by rewrite String.eqb_refl.
      * eapply qr_ok_mono; [apply tokens_kept_append|done].
    + apply tokens_kept_append.
    + intros tok img. by apply build_keeps_files.
  - unfold reward_details. destruct (first_by_token token d); simpl;
      auto using tokens_kept_refl.
  - pose proof (tokens_kept_handle rq (env_utcnow env) d) as Hk.
    destruct (handle rq (env_utcnow env) d) as [resp d']. simpl in *.
    split; [by eapply qr_ok_mono|]. by split.
  - unfold scan_get. destruct (load_user user_id d); simpl; auto using tokens_kept_refl.
  - destruct (serve_qr_cases token (env_host_url env) d q)
      as [[_ ->]|[Hin [[_ ->]|[Hnone ->]]]]; simpl; auto using tokens_kept_refl.
    split; [by apply qr_ok_build|]. split; [apply tokens_kept_refl|].
    intros tok img. by apply build_keeps_files.
Qed.

Lemma serve_requests_qr_ok API_TOKEN ops d q :
  qr_ok qrcode_make d q ->
  qr_ok qrcode_make (serve_requests qrcode_make API_TOKEN ops d q).1
                    (serve_requests qrcode_make API_TOKEN ops d q).2
  /\ tokens_kept d (serve_requests qrcode_make API_TOKEN ops d q).1
  /\ forall tok img, files q !! qr_image_path tok = Some img ->
       files (serve_requests qrcode_make API_TOKEN ops d q).2 !! qr_image_path tok
       = Some img.
Proof.
  revert d q. induction ops as [|[rq env] ops IH]; intros d q Hok; simpl.
  - auto using tokens_kept_refl.
  - destruct (dispatch_qr_ok API_TOKEN rq env d q Hok) as (Hok1 & Hk1 & Hf1).
    destruct (dispatch qrcode_make API_TOKEN rq env d q) as [[resp d1] q1]. simpl in *.
    destruct (IH d1 q1 Hok1) as (Hok2 & Hk2 & Hf2).
    split; [done|]. split; [|by auto].
    intros tok Hin. by apply Hk2, Hk1.
Qed.

Lemma qr_ok_initial users :
  qr_ok qrcode_make {| reward_token := []; user := users |} (mkqr ∅ []).
Proof.
  split; [|split]; simpl.
  - intros tok img. by rewrite lookup_empty.
  - by intros tok ?%elem_of_nil.
  - apply NoDup_nil_2.
Qed.

Lemma builds_of_build tok tok' url q :
  builds_of tok (build_qr_code qrcode_make tok' url q)
  = ((if String.eqb tok' tok then 1 else 0) + builds_of tok q)%nat.
Proof.
  unfold builds_of, build_qr_code. simpl. by destruct (String.eqb tok' tok).
Qed.

(** One request leaves alone the image that is on file for a token of the
    registry: the token stays, the file stays, and it is not built again. *)
Lemma dispatch_keeps_image API_TOKEN rq env d q tok img :
  first_by_token tok d <> None ->
  files q !! qr_image_path tok = Some img ->
  first_by_token tok (dispatch qrcode_make API_TOKEN rq env d q).1.2 <> None
  /\ files (dispatch qrcode_make API_TOKEN rq env d q).2 !! qr_image_path tok = Some img
  /\ builds_of tok (dispatch qrcode_make API_TOKEN rq env d q).2 = builds_of tok q.
Proof.
  intros Hin Hf. destruct rq as [api_key body|token|rq|user_id|token]; simpl.
  - pose proof (api_reward_cases qrcode_make API_TOKEN api_key body
                  (env_uuid4_hex env) (env_utcnow env) (env_host_url env) d q) as Hc.
    destruct (api_reward _ _ _ _ _ _ _ _ _) as [[resp d'] q']. simpl.
    destruct Hc as [(-> & -> & _)|(material & _ & Hfresh & _ & -> & -> & _)]; [done|].
    assert (env_uuid4_hex env <> tok) as Hne by congruence.
    split; [by apply tokens_kept_append|]. split.
    + unfold build_qr_code. simpl. rewrite lookup_insert_ne; [done|].
      intros E. by apply qr_image_path_inj in E.
    + rewrite builds_of_build. by destruct (String.eqb_spec (env_uuid4_hex env) tok).
  - unfold reward_details. by destruct (first_by_token token d).
  - pose proof (tokens_kept_handle rq (env_utcnow env) d) as Hk.
    destruct (handle rq (env_utcnow env) d) as [resp d']. simpl in *. auto.
  - unfold scan_get. by destruct (load_user user_id d).
  - destruct (serve_qr_cases token (env_host_url env) d q)
      as [[_ ->]|[_ [[_ ->]|[Hnone ->]]]]; simpl; [done..|].
    assert (token <> tok) as Hne by congruence.
    split; [done|]. split.
    + unfold build_qr_code. simpl. rewrite lookup_insert_ne; [done|].
      intros E. by apply qr_image_path_inj in E.
    + rewrite builds_of_build. by destruct (String.eqb_spec token tok).
Qed.

Lemma serve_requests_keep_image API_TOKEN ops d q tok img :
  first_by_token tok d <> None ->
  files q !! qr_image_path tok = Some img ->
  first_by_token tok (serve_requests qrcode_make API_TOKEN ops d q).1 <> None
  /\ files (serve_requests qrcode_make API_TOKEN ops d q).2 !! qr_image_path tok = Some img
  /\ builds_of tok (serve_requests qrcode_make API_TOKEN ops d q).2 = builds_of tok q.
Proof.
  revert d q. induction ops as [|[rq env] ops IH]; intros d q Hin Hf; simpl; [done|].
  destruct (dispatch_keeps_image API_TOKEN rq env d q tok img Hin Hf) as (Hin1 & Hf1 & Hb1).
  destruct (dispatch qrcode_make API_TOKEN rq env d q) as [[resp d1] q1]. simpl in *.
  destruct (IH d1 q1 Hin1 Hf1) as (Hin2 & Hf2 & Hb2). by rewrite Hb2.
Qed.

End QrProofs.

(** C9. Fetching the QR image of an existing token answers with the file
    kept under that token's name, and builds that file exactly when it is
    not there yet: with no file, the call builds one image, the code of the
    token's reward-details URL, and files it; with a file, the call changes
    nothing.  A later fetch of the same token, even through another host
    name and after any other requests, finds the file, builds nothing and
    sends the very same image; so over the fetches the image is built at
    most once.  The image decodes to the reward-details URL of that token,
    provided the file found at the first fetch, if any, was such a code. *)
Theorem serve_qr_lazy_and_idempotent
    (image : Type) (qrcode_make : string -> image) (qr_decode : image -> option string)
    (API_TOKEN : string) (d : db) (q : qr_dir image)
    (between : list (http_request * environment)) (tok h1 h2 : string) :
  (forall url, qr_decode (qrcode_make url) = Some url) ->
  image_ok qrcode_make tok q ->
  first_by_token tok d <> None ->
  let '(resp1, q1) := serve_qr qrcode_make tok h1 d q in
  let '(d2, q2) := serve_requests qrcode_make API_TOKEN between d q1 in
  let '(resp2, q3) := serve_qr qrcode_make tok h2 d2 q2 in
  resp1 = send_file (qr_image_path tok) "image/png" /\ resp2 = resp1 /\
  (files q !! qr_image_path tok = None ->
     q1 = build_qr_code qrcode_make tok (url_for_reward_details h1 tok) q
     /\ files q1 !! qr_image_path tok
        = Some (qrcode_make (url_for_reward_details h1 tok))
     /\ builds_of tok q1 = S (builds_of tok q)) /\
  (is_Some (files q !! qr_image_path tok) -> q1 = q) /\
  (exists img host,
     files q1 !! qr_image_path tok = Some img /\
     files q3 !! qr_image_path tok = Some img /\
     qr_decode img = Some (url_for_reward_details host tok)) /\
  q3 = q2 /\
  builds_of tok q3 = builds_of tok q1 /\
  (builds_of tok q3 <= S (builds_of tok q))%nat.
Proof.
  intros Hdecode Hok Hin.
  assert (exists img host,
            files (serve_qr qrcode_make tok h1 d q).2 !! qr_image_path tok = Some img
            /\ img = qrcode_make (url_for_reward_details host tok)
            /\ (serve_qr qrcode_make tok h1 d q).1 = send_file (qr_image_path tok) "image/png"
            /\ (files q !! qr_image_path tok = None ->
                (serve_qr qrcode_make tok h1 d q).2
                = build_qr_code qrcode_make tok (url_for_reward_details h1 tok) q
                /\ img = qrcode_make (url_for_reward_details h1 tok)
                /\ builds_of tok (serve_qr qrcode_make tok h1 d q).2 = S (builds_of tok q))
            /\ (is_Some (files q !! qr_image_path tok) ->
                (serve_qr qrcode_make tok h1 d q).2 = q)
            /\ (builds_of tok (serve_qr qrcode_make tok h1 d q).2 <= S (builds_of tok q))%nat)
    as (img & host & Hf1 & Himg & Hr1 & Hlazy & Hcached & Hb1).
  { destruct (serve_qr_cases qrcode_make tok h1 d q)
      as [[Hnone _]|[_ [[[img Hf] ->]|[Hnone ->]]]]; [done| |]; simpl.
    - destruct (Hok img Hf) as [host ->]. exists (qrcode_make (url_for_reward_details host tok)), host.
      split; [done|]. split; [done|]. split; [done|].
      split; [intros E; congruence|]. split; [done|lia].
    - exists (qrcode_make (url_for_reward_details h1 tok)), h1.
      split; [apply lookup_insert_eq|]. split; [done|]. split; [done|].
      rewrite builds_of_build. rewrite String.eqb_refl.
      split; [done|]. split; [|done]. intros [x Hx]. congruence. }
  destruct (serve_qr qrcode_make tok h1 d q) as [resp1 q1]. simpl in *.
  pose proof (serve_requests_keep_image qrcode_make API_TOKEN between d q1 tok img Hin Hf1)
    as (Hin2 & Hf2 & Hb2).
  destruct (serve_requests qrcode_make API_TOKEN between d q1) as [d2 q2]. simpl in *.
  destruct (serve_qr_cases qrcode_make tok h2 d2 q2)
    as [[Hnone _]|[_ [[_ ->]|[Hnone _]]]]; [done| |congruence].
  split; [done|]. split; [done|].
  split. { intros Hnone. destruct (Hlazy Hnone) as (-> & Hi & Hb). split; [done|].
           split; [|done]. rewrite <- Hi. by rewrite <- Hf1. }
  split; [done|].
  split. { exists img, host. split; [done|]. split; [done|]. subst img. apply Hdecode. }
  split; [done|]. split; [done|]. lia.
Qed.

Lemma serve_qr_witness :
  let '(resp1, q1) := serve_qr (fun url : string => url) "c0ffee" "http://10.0.0.7"
                        race_db (mkqr ∅ []) in
  let '(resp2, q2) := serve_qr (fun url : string => url) "c0ffee" "http://bin.local"
                        race_db q1 in
  resp2 = resp1 /\ q2 = q1
  /\ q1 = mkqr {[ "c0ffee.png" := "http://10.0.0.7/reward/c0ffee" ]}
               [("c0ffee", "http://10.0.0.7/reward/c0ffee")].
Proof.
  pose proof (serve_qr_lazy_and_idempotent string (fun url => url) Some "changeme"
                race_db (mkqr ∅ []) [] "c0ffee" "http://10.0.0.7" "http://bin.local"
                (fun url => eq_refl)) as H.
  simpl in H. simpl.
  destruct H as (_ & H2 & H3 & _ & _ & H6 & _).
  - intros img Himg. vm_compute in Himg. discriminate.
  - discriminate.
  - split; [exact H2|]. split; [exact H6|].
    destruct H3 as (H3 & _); [reflexivity|]. exact H3.
Defined.

(** ** The reward client: [request_reward] *)

(** C6, as the claim states it, fails: the first request finds the server
    unreachable, the second would be answered, and no second is made. *)
Lemma request_reward_does_not_retry :
  ~ retries_unavailable "bottle"
      [RequestException;
       Reply 200 (Some (JObj [("material", JStr "bottle"); ("points", JNum 100);
                              ("qr_url", JStr "http://bin.local/reward/ab12/qrcode")]))].
Proof.
  intros H. specialize (H RequestException eq_refl eq_refl).
  vm_compute in H. lia.
Qed.

Lemma follow_redirects_spec (n : nat) (material : string) (posting : bool)
    (network : list http_reply) :
  let '(result, ev, network1) := follow_redirects n material posting network in
  List.filter is_sleep ev = [] /\
  length (List.filter is_request ev) = (leading_redirects network `min` n)%nat /\
  attempts ev = (if posting then leading_reposts network `min` n else 0)%nat /\
  network1 = drop (S (leading_redirects network `min` n)) network /\
  (forall r, network !! (leading_redirects network `min` n)%nat = Some r ->
             failure r = true -> result = returns None) /\
  (network !! (leading_redirects network `min` n)%nat = None -> result = returns None) /\
  (attempts ev + reposts network1 <= reposts network)%nat.
Proof.
  revert n posting.
  induction network as [|[|how|status body] network IH]; intros n posting.
  - simpl. destruct posting; repeat split; done.
  - simpl. destruct posting; repeat split; try done; unfold attempts, reposts; simpl; lia.
  - destruct n as [|n].
    + simpl. rewrite !Nat.min_0_r. simpl.
      destruct posting; repeat split; try done;
        unfold attempts, reposts; simpl; destruct how; simpl; lia.
    + cbn [follow_redirects].
      specialize (IH n (match how with SameMethod => posting | ChangeToGet => false end)).
      destruct (follow_redirects n material _ network) as [[result ev] network2].
      destruct IH as (H1 & H2 & H3 & H4 & H5 & H6 & H7).
      unfold attempts, reposts in *.
      destruct how, posting; simpl in *;
        (split; [done|]); (split; [by rewrite H2|]); (split; [lia|]);
        (split; [done|]); (split; [done|]); (split; [done|lia]).
  - cbn [follow_redirects].
    destruct ((400 <=? status) && (status <? 600))%Z eqn:E; [|destruct body as [j|]];
      simpl; rewrite ?E; unfold attempts, reposts; simpl;
      destruct posting; repeat split; try done; try lia;
      intros r [= <-]; simpl; congruence.
Qed.

Lemma follow_redirects_reward (n : nat) (material : string) (posting : bool)
    (network : list http_reply) (status : Z) (j : json) :
  network !! (leading_redirects network `min` n)%nat = Some (Reply status (Some j)) ->
  failure (Reply status (Some j)) = false ->
  (follow_redirects n material posting network).1.1 = returns (Some j).
Proof.
  revert n posting.
  induction network as [|[|how|st body] network IH]; intros n posting; [done..| |].
  - destruct n as [|n]; [done|]. cbn [follow_redirects leading_redirects]. simpl.
    intros Hr Hf.
    specialize (IH n (match how with SameMethod => posting | ChangeToGet => false end) Hr Hf).
    by destruct (follow_redirects n material _ network) as [[result ev] network2].
  - simpl. intros [= -> ->] Hf. simpl in Hf. by rewrite Hf.
Qed.

(** C6, as the code has it: a mint call is one call of [requests.post],
    which never sleeps and never tries again.  Its first request is the
    POST; as many requests follow as the server answers with a redirect, up
    to thirty, and the POST is among them only as long as the redirects ask
    for the same method (307, 308).  The reply that is no redirect ends the
    call: a refusal by status (401 for the credential, 400 for the material,
    any other 4xx or 5xx), the absence of a reply, and one redirect too many
    alike end it with no reward, and a JSON body under any other status is
    the reward; when the first reply is a failure the POST is the only
    request. *)
Theorem request_reward_single_attempt (material : string) (network : list http_reply) :
  let '(result, ev, network1) := request_reward material network in
  let followed := (leading_redirects network `min` max_redirects)%nat in
  head ev = Some (HttpPost material) /\
  List.filter is_sleep ev = [] /\
  length (List.filter is_request ev) = S followed /\
  attempts ev = S (leading_reposts network `min` max_redirects) /\
  network1 = drop (S followed) network /\
  (forall r, network !! followed = Some r -> failure r = true -> result = returns None) /\
  (network !! followed = None -> result = returns None) /\
  (forall status j, network !! followed = Some (Reply status (Some j)) ->
     failure (Reply status (Some j)) = false -> result = returns (Some j)) /\
  (forall r, head network = Some r ->
     (r = RequestException
      \/ exists status body, r = Reply status body /\ 400 <= status < 600) ->
     result = returns None /\ ev = [HttpPost material; Stderr ApiRequestFailed]
     /\ network1 = tail network).
Proof.
  unfold request_reward.
  pose proof (follow_redirects_spec max_redirects material true network) as H.
  pose proof (fun status j => follow_redirects_reward max_redirects material true network
                                status j) as Hok.
  assert (forall r, head network = Some r ->
            (r = RequestException
             \/ exists status body, r = Reply status body /\ 400 <= status < 600) ->
            follow_redirects max_redirects material true network
            = (returns None, [Stderr ApiRequestFailed], tail network)) as Hfirst.
  { intros r Hr Hfail. destruct network as [|r' network']; [done|].
    injection Hr as ->. destruct Hfail as [->|(status & body & -> & Hst)]; [done|].
    simpl. destruct (Z.leb_spec 400 status); [|lia].
    destruct (Z.ltb_spec status 600); [done|lia]. }
  destruct (follow_redirects max_redirects material true network) as [[result ev] network1].
  destruct H as (H1 & H2 & H3 & H4 & H5 & H6 & _). cbv zeta.
  split; [done|]. split; [done|]. split; [simpl; by rewrite H2|].
  split; [unfold attempts in *; simpl; by rewrite H3|].
  split; [done|]. split; [done|]. split; [done|]. split; [exact Hok|].
  intros r Hr Hfail. by injection (Hfirst r Hr Hfail) as -> -> ->.
Qed.

Lemma request_reward_witness :
  request_reward "paper" [Reply 401 None; Reply 200 (Some (JObj []))]
  = (returns None, [HttpPost "paper"; Stderr ApiRequestFailed], [Reply 200 (Some (JObj []))]).
Proof.
  pose proof (request_reward_single_attempt "paper"
                [Reply 401 None; Reply 200 (Some (JObj []))]) as H.
  destruct (request_reward _ _) as [[result ev] network1].
  destruct H as (_ & _ & _ & _ & _ & _ & _ & _ & H).
  destruct (H (Reply 401 None)) as (-> & -> & ->).
  - reflexivity.
  - right. exists 401, None. split; [reflexivity|lia].
  - reflexivity.
Defined.

(** A 307 makes [requests] send the POST again, and the answer to that
    second POST is the answer of the call; a 303 makes it go on with a GET. *)
Lemma request_reward_follows_redirects :
  request_reward "bottle" [Redirected SameMethod; Reply 200 (Some (JObj []))]
  = (returns (Some (JObj [])), [HttpPost "bottle"; HttpPost "bottle"], [])
  /\ request_reward "bottle" [Redirected ChangeToGet; Reply 503 None]
     = (returns None, [HttpPost "bottle"; HttpGet; Stderr ApiRequestFailed], []).
Proof. by split. Qed.

(** ** The intake loop: [main] *)

#[local] Open Scope list_scope.

Ltac events_determinate :=
  simpl;
  repeat first [ apply Forall_nil_2
               | apply Forall_cons_2; [simpl; by auto|] ].

Section IntakeLoop.

Variable trigger : string.

Lemma loop_read_failures n serial camera stdin network :
  loop trigger (repeat SerialException n ++ serial) camera stdin network
  = (concat (repeat [Stderr PortReadFailed; Sleep 1000] n)
       ++ (loop trigger serial camera stdin network).1,
     (loop trigger serial camera stdin network).2).
Proof.
  induction n as [|n IH]; simpl.
  - by destruct (loop trigger serial camera stdin network).
  - by rewrite IH.
Qed.

Lemma classify_material_determinate f stdin m ev stdin1 :
  classify_material f stdin = (returns m, ev, stdin1) ->
  (m = "bottle" \/ m = "paper") /\ Forall determinate ev.
Proof.
  unfold classify_material.
  destruct (blue_ratio_above_0_1 f); [intros [= <- <- <-]; by auto|].
  destruct (mean_intensity_above_150 f); [intros [= <- <- <-]; by auto|].
  destruct stdin as [|typed stdin]; [done|]. intros [= <- <- <-].
  split; [|by repeat constructor].
  destruct (negb _); by auto.
Qed.

Lemma classify_material_events f stdin :
  Forall determinate (classify_material f stdin).1.2.
Proof.
  unfold classify_material.
  destruct (blue_ratio_above_0_1 f); [by constructor|].
  destruct (mean_intensity_above_150 f); [by constructor|].
  destruct stdin; by repeat constructor.
Qed.

Lemma capture_frame_events camera : Forall determinate (capture_frame camera).1.2.
Proof. destruct camera as [|[| |f] camera]; by repeat constructor. Qed.

Lemma request_reward_events material network :
  material = "bottle" \/ material = "paper" ->
  Forall determinate (request_reward material network).1.2.
Proof.
  intros Hm. unfold request_reward.
  assert (forall n posting,
            Forall determinate (follow_redirects n material posting network).1.2) as H.
  { induction network as [|[|how|status body] network1 IH]; intros n posting;
      [events_determinate..| |].
    - destruct n as [|n]; [events_determinate|]. cbn [follow_redirects].
      specialize (IH n (match how with SameMethod => posting | ChangeToGet => false end)).
      destruct (follow_redirects n material _ network1) as [[result ev] network2].
      simpl in *. apply Forall_cons_2; [|done]. by destruct how, posting.
    - simpl. destruct (_ && _); [events_determinate|].
      destruct body; events_determinate. }
  specialize (H max_redirects true).
  destruct (follow_redirects max_redirects material true network) as [[result ev] network1].
  simpl in *. by apply Forall_cons_2.
Qed.

Lemma report_reward_events reward ev :
  report_reward reward = returns ev -> Forall determinate ev.
Proof.
  unfold report_reward. destruct reward as [j|]; [|intros [= <-]; constructor].
  destruct (negb (truthy j)); [intros [= <-]; constructor|].
  destruct j; try done.
  destruct (dict_get "material" members); [|done].
  destruct (dict_get "points" members); [|done].
  destruct (dict_get "qr_url" members); [|done].
  intros [= <-]. by repeat constructor.
Qed.

(** Whatever the environment does, the loop posts bottles and paper only. *)
Lemma loop_determinate serial camera stdin network :
  Forall determinate (loop trigger serial camera stdin network).1.
Proof.
  revert camera stdin network.
  induction serial as [|[|txt] serial IH]; intros camera stdin network; simpl.
  - constructor.
  - specialize (IH camera stdin network).
    destruct (loop trigger serial camera stdin network) as [tr st]. simpl in *.
    by repeat constructor.
  - destruct (String.eqb (strip txt) ""); [apply IH|].
    destruct (negb _); [apply IH|].
    pose proof (capture_frame_events camera) as Hcap.
    destruct (capture_frame camera) as [[[f|] ev1] camera1]; simpl in Hcap.
    + pose proof (classify_material_events f stdin) as Hev2.
      pose proof (classify_material_determinate f stdin) as Hcl.
      destruct (classify_material f stdin) as [[[material|e] ev2] stdin1]; simpl in Hev2.
      * destruct (Hcl material ev2 stdin1 eq_refl) as [Hm _].
        pose proof (request_reward_events material network Hm) as Hev3.
        destruct (request_reward material network) as [[[reward|e] ev3] network1];
          simpl in Hev3.
        -- pose proof (report_reward_events reward) as Hev4.
           destruct (report_reward reward) as [ev4|e].
           ++ specialize (IH camera1 stdin1 network1). specialize (Hev4 ev4 eq_refl).
              destruct (loop trigger serial camera1 stdin1 network1) as [tr st].
              simpl in *. constructor; [done|].
              repeat (apply Forall_app; split; try done).
              constructor; [done|].
              repeat (apply Forall_app; split; try done).
              by constructor.
           ++ simpl. constructor; [done|].
              repeat (apply Forall_app; split; try done). by constructor.
        -- simpl. constructor; [done|].
           repeat (apply Forall_app; split; try done). by constructor.
      * simpl. constructor; [done|]. by apply Forall_app.
    + specialize (IH camera1 stdin network).
      destruct (loop trigger serial camera1 stdin network) as [tr st]. simpl in *.
      constructor; [done|]. by apply Forall_app.
Qed.

End IntakeLoop.

(** C7, as the claim states it, fails: the port cannot be opened at the
    first attempt and could be at the second; the agent reports the failure
    and exits with status 1, without a pause and without a second attempt. *)
Lemma main_exits_when_port_cannot_be_opened :
  ~ reopens_port "1" [false; true] [Line "1"] [Frame (mkframe true false)] []
      [Reply 200 (Some (JObj []))].
Proof.
  unfold reopens_port. simpl. intros H.
  destruct (H eq_refl) as [Hst _]. by apply (Hst 1).
Qed.

(** C7, as the code has it: when the port cannot be opened, [main] reports
    it and exits with status 1 after that single attempt.  Once the port is
    open, a failed read is reported and followed by a pause of one second
    and by the next read from the same port: any number of failed reads in a
    row leaves the loop running, with exactly that trace and no further
    attempt to open the port. *)
Theorem serial_failures_as_handled
    (trigger : string) (port : list bool) (serial : list serial_read)
    (camera : list capture) (stdin : list string) (network : list http_reply) (n : nat) :
  (head port <> Some true ->
     main trigger port serial camera stdin network
     = ([OpenSerial; Stderr PortOpenFailed], Exited 1)) /\
  loop trigger (repeat SerialException n ++ serial) camera stdin network
  = (concat (repeat [Stderr PortReadFailed; Sleep 1000] n)
       ++ (loop trigger serial camera stdin network).1,
     (loop trigger serial camera stdin network).2) /\
  main trigger (true :: port) (repeat SerialException n) camera stdin network
  = (OpenSerial :: Stdout WaitingForSignal
       :: concat (repeat [Stderr PortReadFailed; Sleep 1000] n),
     Listening).
Proof.
  split; [|split].
  - intros Hport. unfold main. by destruct port as [|[|] port].
  - apply loop_read_failures.
  - unfold main.
    pose proof (loop_read_failures trigger n [] camera stdin network) as H.
    rewrite app_nil_r in H. rewrite H. simpl. by rewrite !app_nil_r.
Qed.

Lemma serial_failures_witness :
  main "1" [false; true] [Line "1"] [] [] []
  = ([OpenSerial; Stderr PortOpenFailed], Exited 1).
Proof.
  apply (serial_failures_as_handled "1" [false; true] [Line "1"] [] [] [] 0).
  discriminate.
Defined.

(** C8. Every mint request the agent sends, in any run, names "bottle" or
    "paper".  And when the trigger fires, a frame is captured on which
    neither test decides, and the operator gives no input (the prompt finds
    the input closed), the cycle sends no request: the prompt is the last
    thing the agent does before it stops. *)
Theorem only_determinate_materials_are_requested
    (trigger : string) (port : list bool) (serial : list serial_read)
    (camera : list capture) (stdin : list string) (network : list http_reply) :
  Forall determinate (main trigger port serial camera stdin network).1 /\
  (forall txt f,
     strip txt = trigger -> trigger <> "" -> uncertain f = true ->
     let '(tr, st) := main trigger (true :: port) (Line txt :: serial)
                        (Frame f :: camera) [] network in
     tr = [OpenSerial; Stdout WaitingForSignal; Stdout SensorEvent; Prompt;
           CloseSerial; Stdout ShuttingDown]
     /\ st = Died "EOFError" /\ attempts tr = 0%nat).
Proof.
  split.
  - unfold main. destruct port as [|[|] port]; [by repeat constructor| |by repeat constructor].
    pose proof (loop_determinate trigger serial camera stdin network) as H.
    destruct (loop trigger serial camera stdin network) as [tr st]. simpl in *.
    repeat (constructor; [done|]). apply Forall_app. split; [done|].
    destruct st; by repeat constructor.
  - intros txt f Htxt Hne Hunc. unfold main. simpl. rewrite Htxt.
    destruct (String.eqb_spec trigger "") as [E|_]; [done|].
    rewrite String.eqb_refl. simpl.
    unfold uncertain in Hunc. apply andb_true_iff in Hunc as [Hb Hi].
    apply negb_true_iff in Hb, Hi. unfold classify_material. rewrite Hb, Hi. simpl.
    done.
Qed.

Lemma only_determinate_witness :
  let '(tr, st) := main "1" [true] [Line " 1 "; Line "1"] [Frame (mkframe false false)] []
                     [Reply 200 (Some (JObj []))] in
  st = Died "EOFError" /\ attempts tr = 0%nat.
Proof.
  pose proof (only_determinate_materials_are_requested "1" [] [Line "1"] [] [] 
                [Reply 200 (Some (JObj []))]) as [_ H].
  specialize (H " 1 " (mkframe false false)).
  destruct (main _ _ _ _ _ _) as [tr st].
  destruct H as (_ & H2 & H3).
  - reflexivity.
  - discriminate.
  - reflexivity.
  - split; assumption.
Defined.

(** C10. In the operator fallback every typed line is an answer, and the
    answer is paper or bottle, never an exception: the prompt is shown once
    and one line is consumed.  The answer is paper exactly when the line is
    a word that lowercases to "paper" or "p" with nothing but white space
    before and after it (which is what stripping and lowering leave to be
    compared); any other line, the empty line included, gives bottle. *)
Theorem operator_fallback_defaults_to_bottle
    (f : frame) (typed : string) (stdin : list string) :
  uncertain f = true ->
  exists material,
    classify_material f (typed :: stdin) = (returns material, [Prompt], stdin)
    /\ (material = "paper" \/ material = "bottle")
    /\ (material = "paper" <->
        exists pre word post,
          typed = (pre ++ word ++ post)%string /\ blank pre /\ blank post
          /\ (lower word = "paper" \/ lower word = "p"))
    /\ (lower (strip typed) = "paper" \/ lower (strip typed) = "p" -> material = "paper")
    /\ (lower (strip typed) <> "paper" -> lower (strip typed) <> "p" -> material = "bottle")
    /\ classify_material f ("" :: stdin) = (returns "bottle", [Prompt], stdin).
Proof.
  intros Hunc. unfold uncertain in Hunc. apply andb_true_iff in Hunc as [Hb Hi].
  apply negb_true_iff in Hb, Hi. unfold classify_material. rewrite Hb, Hi.
  eexists. split; [reflexivity|].
  assert (forall word, lower word = "paper" \/ lower word = "p" ->
            String.eqb (lower word) "paper" || String.eqb (lower word) "p" = true)
    as Hyes by (by intros word [-> | ->]).
  assert (forall word,
            String.eqb (lower word) "paper" || String.eqb (lower word) "p" = false ->
            lower word <> "paper" /\ lower word <> "p") as Hno.
  { intros word [H1 H2]%orb_false_iff. by apply String.eqb_neq in H1, H2. }
  split; [|split; [|split; [|split; [|done]]]].
  - destruct (negb _); by auto.
  - split.
    + intros Hm. destruct (strip_decompose typed) as (pre & post & Htyped & Hpre & Hpost).
      exists pre, (strip typed), post. split; [done|]. split; [done|]. split; [done|].
      destruct (String.eqb (lower (strip typed)) "paper"
                || String.eqb (lower (strip typed)) "p") eqn:E; [|done].
      apply orb_true_iff in E as [E|E]; apply String.eqb_eq in E; by auto.
    + intros (pre & word & post & -> & Hpre & Hpost & Hword).
      rewrite (strip_paper pre word post Hword Hpre Hpost).
      by rewrite (Hyes word Hword).
  - intros H. by rewrite (Hyes _ H).
  - intros H1 H2.
    destruct (String.eqb_spec (lower (strip typed)) "paper") as [E|_]; [done|].
    destruct (String.eqb_spec (lower (strip typed)) "p") as [E|_]; done.
Qed.

Lemma operator_fallback_witness :
  classify_material (mkframe false false)
    [(utf8 [194; 160]%N ++ "PaPeR" ++ utf8 [9; 227; 128; 128]%N)%string; "bottle"]
  = (returns "paper", [Prompt], ["bottle"]).
Proof.
  destruct (operator_fallback_defaults_to_bottle (mkframe false false)
              (utf8 [194; 160]%N ++ "PaPeR" ++ utf8 [9; 227; 128; 128]%N)%string
              ["bottle"])
    as (material & -> & _ & H & _).
  - reflexivity.
  - destruct H as [_ H]. rewrite H; [reflexivity|].
    exists (utf8 [194; 160]%N), "PaPeR", (utf8 [9; 227; 128; 128]%N).
    split; [reflexivity|].
    split; [|split; [|by left]].
    + apply (blank_cons (utf8 [194; 160]%N) ""); [|constructor].
      apply isspace_whitespace. reflexivity.
    + apply (blank_cons (utf8 [9]%N) (utf8 [227; 128; 128]%N)).
      * apply isspace_whitespace. reflexivity.
      * apply (blank_cons (utf8 [227; 128; 128]%N) ""); [|constructor].
        apply isspace_whitespace. reflexivity.
Defined.

(** Some lines of the operator: letter case and the white space around the
    word are of no account, anything within the word is. *)
Lemma operator_lines :
  let answer typed := (classify_material (mkframe false false) [typed]).1.1 in
  answer "P" = returns "paper"
  /\ answer (" paper" ++ utf8 [194; 133]%N)%string = returns "paper"
  /\ answer (utf8 [226; 128; 137]%N ++ "PAPER" ++ utf8 [13; 10]%N)%string
     = returns "paper"
  /\ answer "papers" = returns "bottle"
  /\ answer "pa per" = returns "bottle"
  /\ answer "plastic" = returns "bottle"
  /\ answer (utf8 [194; 160]%N) = returns "bottle"
  /\ answer "" = returns "bottle".
Proof. by vm_compute. Qed.

(** An empty line is an answer like any other: the cycle goes on and asks
    for the reward of a bottle. *)
Lemma empty_line_requests_a_bottle :
  main "1" [true] [Line "1"] [Frame (mkframe false false)] [""] [RequestException]
  = ([OpenSerial; Stdout WaitingForSignal; Stdout SensorEvent; Prompt;
      Stdout (MaterialDetermined "bottle"); HttpPost "bottle";
      Stderr ApiRequestFailed; Sleep 500], Listening).
Proof. reflexivity. Qed.


(** * Further properties of the code *)

#[local] Open Scope string_scope.

(** ** Redemption, beyond the claims *)

Ltac refuted := intros (? & ? & ? & ? & ? & ? & ?); congruence.

(** A redeeming request is credited exactly when its caller is a user of
    the database, a code was given (the scan form refuses a blank one), the
    code is a token of the registry, and that token is unredeemed.  A request
    that is not credited writes nothing. *)
Theorem credited_exactly_when_redeemable (d : db) (rq : request) (now : Z) :
  (is_credited (handle rq now d).1 = true <->
   exists uid r,
     caller_of rq = Some uid /\ is_Some (user d !! uid)
     /\ (forall u f, rq = ScanPost u f -> token_of rq <> "")
     /\ first_by_token (token_of rq) d = Some r
     /\ RewardToken.redeemed r = false)
  /\ (is_credited (handle rq now d).1 = false -> (handle rq now d).2 = d).
Proof.
  destruct rq as [a t|a f]; simpl.
  - unfold redeem_reward, redeem_reward_query, load_user, redeem_reward_finish.
    destruct a as [uid|]; [|split; [split; [done|refuted]|done]].
    destruct (user d !! uid) as [u|] eqn:Hu; [|split; [split; [done|]|done]].
    2: { intros (uid' & r & [= <-] & [u Hu'] & _). congruence. }
    destruct (first_by_token t d) as [r|] eqn:Hr; [|split; [split; [done|refuted]|done]].
    simpl. destruct (RewardToken.redeemed r) eqn:Hred; simpl.
    + split; [split; [done|refuted]|done].
    + split; [|done]. split; [|done]. intros _. exists uid, r.
      split; [done|]. split; [by eexists|]. split; [|done]. by intros u' f' [=].
  - unfold scan_post, scan_query, load_user, scan_finish.
    destruct a as [uid|]; [|split; [split; [done|refuted]|done]].
    destruct (user d !! uid) as [u|] eqn:Hu; [|split; [split; [done|]|done]].
    2: { intros (uid' & r & [= <-] & [u Hu'] & _). congruence. }
    destruct (String.eqb_spec (strip (default "" f)) "") as [E|E].
    { split; [split; [done|]|done]. intros (uid' & r & _ & _ & Hne & _).
      by destruct (Hne _ _ eq_refl). }
    destruct (first_by_token _ d) as [r|] eqn:Hr; [|split; [split; [done|refuted]|done]].
    simpl. destruct (RewardToken.redeemed r) eqn:Hred; simpl.
    + split; [split; [done|refuted]|done].
    + split; [|done]. split; [|done]. intros _. exists uid, r.
      split; [done|]. split; [by eexists|]. split; [|done]. by intros u' f' [= <- <-].
Qed.

Lemma credited_exactly_when_redeemable_witness :
  (handle (RedeemReward None "c0ffee") 2000 race_db).2 = race_db.
Proof.
  apply (credited_exactly_when_redeemable race_db (RedeemReward None "c0ffee") 2000).
  reflexivity.
Defined.

(** The scan form is the redeem route with the typed code stripped: what
    is taken off the code is white space before and after it, and nothing
    else; for a code that is not blank both routes leave the same database
    and tell the caller the same thing about the token; a blank or missing
    code is refused before any lookup, with nothing written. *)
Theorem scan_is_redeem_with_the_code_stripped
    (d : db) (user_id : option Z) (form_token : option string) (now : Z) :
  (strip (default "" form_token) <> "" ->
     (scan_post user_id form_token now d).2
     = (redeem_reward user_id (strip (default "" form_token)) now d).2
     /\ outcome_of (scan_post user_id form_token now d).1
        = outcome_of (redeem_reward user_id (strip (default "" form_token)) now d).1)
  /\ (strip (default "" form_token) = "" -> is_Some (load_user user_id d) ->
      scan_post user_id form_token now d
      = (render_template "scan.html" [("danger", ScanEnterCode)], d))
  /\ (exists pre post,
        default "" form_token = pre ++ strip (default "" form_token) ++ post
        /\ blank pre /\ blank post).
Proof.
  unfold scan_post, scan_query, redeem_reward, redeem_reward_query. split; [|split].
  - intros Hne. destruct (load_user user_id d) as [[uid u]|]; [|done].
    destruct (String.eqb_spec (strip (default "" form_token)) "") as [E|_]; [done|].
    destruct (first_by_token _ d) as [r|]; [|done].
    unfold scan_finish, redeem_reward_finish. simpl.
    by destruct (RewardToken.redeemed r).
  - intros E [[uid u] Hu]. rewrite Hu, E. done.
  - apply strip_decompose.
Qed.

Lemma scan_is_redeem_witness :
  (scan_post (Some 1) (Some (utf8 [194; 160]%N ++ " c0ffee" ++ utf8 [226; 128; 168; 10]%N))
             2000 race_db).2
  = (redeem_reward (Some 1) "c0ffee" 2000 race_db).2.
Proof.
  apply (scan_is_redeem_with_the_code_stripped race_db (Some 1)
           (Some (utf8 [194; 160]%N ++ " c0ffee" ++ utf8 [226; 128; 168; 10]%N)) 2000).
  discriminate.
Defined.

(** Issue, then redeem: a token granted by [api_reward] is redeemed, by
    either route and by any user of the database, for the points of the
    tariff; the record then names that user and the time of the redemption. *)
Theorem issued_token_redeems_for_its_tariff
    (image : Type) (qrcode_make : string -> image) (API_TOKEN : string)
    (members : list (string * json)) (s uuid : string) (now : Z) (host : string)
    (d : db) (q : qr_dir image) (rq : request) (uid later : Z) :
  dict_get "material" members = Some (JStr s) -> in_tariff (lower s) = true ->
  first_by_token uuid d = None -> uuid <> "" ->
  token_of rq = uuid -> caller_of rq = Some uid -> is_Some (user d !! uid) ->
  let '(_, d1, _) := api_reward qrcode_make API_TOKEN (Some API_TOKEN)
                       (Some (JObj members)) uuid now host d q in
  let '(resp, d2) := handle rq later d1 in
  outcome_of resp = Credited (tariff (lower s))
  /\ points_of uid d2 = points_of uid d + tariff (lower s)
  /\ first_by_token uuid d2
     = Some (RewardToken.redeem later uid
               (RewardToken.new (next_id (reward_token d)) uuid (lower s)
                                (tariff (lower s)) now)).
Proof.
  intros Hm Hin Hfresh Hne Htok Hcaller [u Hu].
  rewrite (api_reward_granted qrcode_make API_TOKEN members s uuid now host d q Hm Hin Hfresh).
  set (row := RewardToken.new (next_id (reward_token d)) uuid (lower s) (tariff (lower s)) now).
  set (d1 := {| reward_token := reward_token d ++ [row]; user := user d |}).
  assert (first_by_token uuid d1 = Some row) as Hrow.
  { unfold first_by_token in *. simpl. rewrite find_app_None by done. simpl.
    by rewrite String.eqb_refl. }
  destruct (handle_unredeemed d1 rq uuid row uid u later) as [Hd Hout]; try done.
  destruct (handle rq later d1) as [resp d2]. simpl in *. subst d2.
  split; [done|]. split; [|by apply first_by_token_commit].
  rewrite (points_of_commit d1 row uid u later uid Hu). rewrite decide_True by done.
  done.
Qed.

Lemma issued_token_redeems_witness :
  let '(_, d1, _) := api_reward (fun url : string => url) "changeme" (Some "changeme")
                       (Some (JObj [("material", JStr "PAPER")])) "ab12" 3000
                       "http://bin.local" race_db (mkqr ∅ []) in
  let '(resp, d2) := handle (ScanPost (Some 2) (Some "ab12")) 4000 d1 in
  outcome_of resp = Credited 50 /\ points_of 2 d2 = 80.
Proof.
  pose proof (issued_token_redeems_for_its_tariff string (fun url => url) "changeme"
                [("material", JStr "PAPER")] "PAPER" "ab12" 3000 "http://bin.local"
                race_db (mkqr ∅ []) (ScanPost (Some 2) (Some "ab12")) 2 4000) as H.
  destruct (api_reward _ _ _ _ _ _ _ _ _) as [[resp1 d1] q1].
  destruct (handle _ 4000 d1) as [resp d2].
  destruct H as (H1 & H2 & _); try reflexivity.
  - discriminate.
  - vm_compute. eauto.
  - split; [exact H1|]. rewrite H2. reflexivity.
Defined.

(** ** What every state of the registry keeps *)

Section Reachable.
Context {image : Type} (qrcode_make : string -> image).

Implicit Types (d : db) (q : qr_dir image) (s : session).

Lemma serve_requests_invariant (P : db -> qr_dir image -> Prop) API_TOKEN :
  (forall rq env d q,
     P d q -> P (dispatch qrcode_make API_TOKEN rq env d q).1.2
                (dispatch qrcode_make API_TOKEN rq env d q).2) ->
  forall ops d q,
    P d q -> P (serve_requests qrcode_make API_TOKEN ops d q).1
               (serve_requests qrcode_make API_TOKEN ops d q).2.
Proof.
  intros Hstep ops. induction ops as [|[rq env] ops IH]; intros d q HP; simpl; [done|].
  specialize (Hstep rq env d q HP).
  destruct (dispatch qrcode_make API_TOKEN rq env d q) as [[resp d1] q1]. by apply IH.
Qed.

Lemma first_by_token_None tok d :
  first_by_token tok d = None <-> tok ∉ RewardToken.token <$> reward_token d.
Proof.
  unfold first_by_token. induction (reward_token d) as [|x rows IH]; simpl.
  - split; [intros _ H; by apply elem_of_nil in H|done].
  - rewrite not_elem_of_cons. destruct (String.eqb_spec (RewardToken.token x) tok) as [E|E].
    + split; [done|]. by intros [? _].
    + rewrite IH. split; [by intros ?; split|by intros [_ ?]].
Qed.

Lemma first_by_token_elem tok d r :
  first_by_token tok d = Some r -> r ∈ reward_token d /\ RewardToken.token r = tok.
Proof.
  unfold first_by_token. intros [Hin Heq]%find_some. split.
  - by apply list_elem_of_In.
  - by apply String.eqb_eq.
Qed.

Lemma query_inr_elem d rq s :
  match rq with
  | RedeemReward a t => redeem_reward_query a t d
  | ScanPost a f => scan_query a f d
  end = inr s ->
  user d !! current_user_id s = Some (current_user s) /\ reward s ∈ reward_token d.
Proof.
  intros [Hu [tok Hr]]%query_inr. split; [done|]. by apply first_by_token_elem in Hr as [? _].
Qed.

(** All that one request can do to the database. *)
Lemma dispatch_db_cases API_TOKEN rq env d q :
  (dispatch qrcode_make API_TOKEN rq env d q).1.2 = d
  \/ (exists s,
        (dispatch qrcode_make API_TOKEN rq env d q).1.2
        = commit_redemption s (env_utcnow env) d
        /\ is_credited (dispatch qrcode_make API_TOKEN rq env d q).1.1 = true
        /\ user d !! current_user_id s = Some (current_user s)
        /\ reward s ∈ reward_token d
        /\ RewardToken.redeemed (reward s) = false)
  \/ (exists material,
        in_tariff material = true
        /\ first_by_token (env_uuid4_hex env) d = None
        /\ (dispatch qrcode_make API_TOKEN rq env d q).1.2
           = {| reward_token :=
                  reward_token d
                  ++ [RewardToken.new (next_id (reward_token d)) (env_uuid4_hex env)
                                      material (tariff material) (env_utcnow env)];
                user := user d |}).
Proof.
  destruct rq as [api_key body|token|rq|user_id|token]; simpl.
  - pose proof (api_reward_cases qrcode_make API_TOKEN api_key body
                  (env_uuid4_hex env) (env_utcnow env) (env_host_url env) d q) as Hc.
    destruct (api_reward _ _ _ _ _ _ _ _ _) as [[resp d'] q']. simpl.
    destruct Hc as [(-> & _)|(material & Hm & Hfresh & _ & -> & _)]; [by left|].
    right. right. by exists material.
  - left. unfold reward_details. by destruct (first_by_token token d).
  - rewrite handle_unfold.
    destruct (match rq with
              | RedeemReward a t => redeem_reward_query a t d
              | ScanPost a f => scan_query a f d
              end) as [resp|s] eqn:Hq; [by left|].
    apply query_inr_elem in Hq as [Hu Hin].
    destruct rq; unfold redeem_reward_finish, scan_finish;
      destruct (RewardToken.redeemed (reward s)) eqn:Hred; simpl; try (by left);
      right; left; by exists s.
  - left. unfold scan_get. by destruct (load_user user_id d).
  - left. by destruct (serve_qr _ _ _ _ _).
Qed.

Lemma commit_redemption_rows s now d :
  Forall2 (fun r r' => same_grant r r'
                       /\ (RewardToken.redeemed r = true -> RewardToken.redeemed r' = true))
          (reward_token d) (reward_token (commit_redemption s now d)).
Proof.
  unfold commit_redemption. simpl. apply Forall2_fmap_r, Forall_Forall2_diag.
  apply Forall_forall. intros r _. simpl.
  destruct (RewardToken.id r =? _)%Z; by repeat split.
Qed.

Lemma commit_redemption_tokens s now d :
  RewardToken.token <$> reward_token (commit_redemption s now d)
  = RewardToken.token <$> reward_token d.
Proof.
  unfold commit_redemption. simpl. rewrite <- list_fmap_compose.
  apply list_fmap_ext. intros i r _. simpl. by destruct (RewardToken.id r =? _)%Z.
Qed.

Lemma grants_kept_refl d : grants_kept d d.
Proof. intros i r Hi. exists r. by repeat split. Qed.

Lemma grants_kept_trans d1 d2 d3 :
  grants_kept d1 d2 -> grants_kept d2 d3 -> grants_kept d1 d3.
Proof.
  intros H12 H23 i r Hi.
  destruct (H12 i r Hi) as (r2 & Hi2 & (E1 & E2 & E3 & E4 & E5) & Hred2).
  destruct (H23 i r2 Hi2) as (r3 & Hi3 & (F1 & F2 & F3 & F4 & F5) & Hred3).
  exists r3. split; [done|]. split; [|by auto].
  repeat split; congruence.
Qed.

Lemma grants_kept_commit s now d : grants_kept d (commit_redemption s now d).
Proof.
  intros i r Hi. pose proof (commit_redemption_rows s now d) as H.
  destruct (Forall2_lookup_l _ _ _ _ _ H Hi) as (r' & Hi' & Hsame & Hred). eauto.
Qed.

Lemma grants_kept_dispatch API_TOKEN rq env d q :
  grants_kept d (dispatch qrcode_make API_TOKEN rq env d q).1.2.
Proof.
  destruct (dispatch_db_cases API_TOKEN rq env d q)
    as [->|[(s & -> & _)|(material & _ & _ & ->)]].
  - apply grants_kept_refl.
  - apply grants_kept_commit.
  - intros i r Hi. exists r. simpl. split; [by apply lookup_app_l_Some|].
    by repeat split.
Qed.

Lemma tariff_row_redeem now uid r :
  tariff_row (RewardToken.redeem now uid r) = tariff_row r.
Proof. done. Qed.

Lemma registry_wf_dispatch API_TOKEN rq env d q :
  registry_wf d -> registry_wf (dispatch qrcode_make API_TOKEN rq env d q).1.2.
Proof.
  intros (Hok & Htok & Htar).
  destruct (dispatch_db_cases API_TOKEN rq env d q)
    as [->|[(s & -> & _)|(material & Hm & Hfresh & ->)]]; [done| |].
  - split; [by apply commit_redemption_ok|]. split.
    + by rewrite commit_redemption_tokens.
    + unfold commit_redemption. simpl. apply Forall_fmap.
      eapply Forall_impl; [exact Htar|]. intros r Hr. simpl.
      by destruct (RewardToken.id r =? _)%Z.
  - apply db_ok_spec in Hok as [Hrows Hids]. split; [|split]; simpl.
    + apply db_ok_spec. simpl. split.
      * apply Forall_app. split; [done|]. by repeat constructor.
      * rewrite fmap_app. simpl. apply NoDup_app. split; [done|]. split.
        -- intros x Hx [->|[]%elem_of_nil]%elem_of_cons.
           apply list_elem_of_fmap in Hx as (r & Hid & Hr).
           apply next_id_fresh in Hr. lia.
        -- apply NoDup_singleton.
    + rewrite fmap_app. simpl. apply NoDup_app. split; [done|]. split.
      * intros x Hx [->|[]%elem_of_nil]%elem_of_cons.
        by apply first_by_token_None in Hfresh.
      * apply NoDup_singleton.
    + apply Forall_app. split; [done|]. constructor; [|done].
      unfold tariff_row. simpl. by rewrite Hm, Z.eqb_refl.
Qed.

Lemma registry_wf_empty users : registry_wf {| reward_token := []; user := users |}.
Proof. split; [done|]. split; [apply NoDup_nil_2|done]. Qed.

Lemma registry_wf_reachable API_TOKEN ops users :
  registry_wf (serve_requests qrcode_make API_TOKEN ops
                 {| reward_token := []; user := users |} (mkqr ∅ [])).1.
Proof.
  apply (serve_requests_invariant (fun d _ => registry_wf d)).
  - intros rq env d q. apply registry_wf_dispatch.
  - apply registry_wf_empty.
Qed.

Lemma images_follow_records_dispatch API_TOKEN rq env d q :
  images_follow_records d q ->
  images_follow_records (dispatch qrcode_make API_TOKEN rq env d q).1.2
                        (dispatch qrcode_make API_TOKEN rq env d q).2.
Proof.
  intros Hinv. pose proof Hinv as [Hb Hf].
  assert (forall s now, images_follow_records (commit_redemption s now d) q) as Hcommit.
  { intros s now. split; [by rewrite commit_redemption_tokens|].
    unfold commit_redemption. simpl. apply Forall_fmap.
    eapply Forall_impl; [exact Hf|]. intros r Hr. simpl.
    by destruct (RewardToken.id r =? _)%Z. }
  destruct rq as [api_key body|token|rq|user_id|token]; simpl.
  - pose proof (api_reward_cases qrcode_make API_TOKEN api_key body
                  (env_uuid4_hex env) (env_utcnow env) (env_host_url env) d q) as Hc.
    destruct (api_reward _ _ _ _ _ _ _ _ _) as [[resp d'] q']. simpl.
    destruct Hc as [(-> & -> & _)|(material & _ & _ & _ & -> & -> & _)]; [done|].
    split; simpl.
    + rewrite fmap_app, rev_app_distr. simpl. f_equal. exact Hb.
    + apply Forall_app. split.
      * eapply Forall_impl; [exact Hf|]. intros r [img Hr]. simpl.
        destruct (decide (qr_image_path (RewardToken.token r)
                          = qr_image_path (env_uuid4_hex env))) as [->|Hne].
        -- rewrite lookup_insert_eq. by eexists.
        -- rewrite lookup_insert_ne by done. by eexists.
      * constructor; [|done]. simpl. rewrite lookup_insert_eq. by eexists.
  - unfold reward_details. by destruct (first_by_token token d).
  - rewrite handle_unfold.
    destruct (match rq with
              | RedeemReward a t => redeem_reward_query a t d
              | ScanPost a f => scan_query a f d
              end) as [resp|s]; [done|].
    destruct rq; unfold redeem_reward_finish, scan_finish;
      destruct (RewardToken.redeemed (reward s)); simpl; auto.
  - unfold scan_get. by destruct (load_user user_id d).
  - unfold serve_qr. destruct (first_by_token token d) as [r|] eqn:Hr; simpl; [|done].
    apply first_by_token_elem in Hr as [Hin <-].
    rewrite Forall_forall in Hf. destruct (Hf r Hin) as [img ->]. done.
Qed.



(** One request moves a balance by nothing, or by the tariff points of the
    record it redeems. *)
Lemma dispatch_balances API_TOKEN rq env d q :
  Forall (fun r => tariff_row r = true) (reward_token d) ->
  dom (user (dispatch qrcode_make API_TOKEN rq env d q).1.2) = dom (user d)
  /\ forall uid,
       points_of uid (dispatch qrcode_make API_TOKEN rq env d q).1.2 = points_of uid d
       \/ (is_credited (dispatch qrcode_make API_TOKEN rq env d q).1.1 = true
           /\ (points_of uid (dispatch qrcode_make API_TOKEN rq env d q).1.2
               = points_of uid d + 50
               \/ points_of uid (dispatch qrcode_make API_TOKEN rq env d q).1.2
                  = points_of uid d + 100)).
Proof.
  intros Htar.
  destruct (dispatch_db_cases API_TOKEN rq env d q)
    as [->|[(s & -> & Hcred & Hu & Hin & _)|(material & _ & _ & ->)]];
    [by auto| |by auto].
  split.
  - unfold commit_redemption. simpl. apply dom_alter_L.
  - intros uid. destruct s as [cu u r]. simpl in *.
    rewrite (points_of_commit d r cu u _ uid Hu).
    destruct (decide (uid = cu)) as [->|Hne]; [right|left; lia].
    split; [done|]. rewrite Forall_forall in Htar. specialize (Htar r Hin).
    unfold tariff_row in Htar. apply andb_true_iff in Htar as [_ Hp].
    apply Z.eqb_eq in Hp. rewrite Hp. unfold tariff.
    destruct (String.eqb _ "bottle"); auto.
Qed.

End Reachable.

(** In every state the server reaches from an empty registry no two records
    share a token and no two share a primary key: a token read from a QR code
    names at most one record. *)
Theorem tokens_and_keys_stay_distinct
    (image : Type) (qrcode_make : string -> image) (API_TOKEN : string)
    (ops : list (http_request * environment)) (users : gmap Z User.t) :
  let d := (serve_requests qrcode_make API_TOKEN ops
              {| reward_token := []; user := users |} (mkqr ∅ [])).1 in
  NoDup (RewardToken.token <$> reward_token d)
  /\ NoDup (RewardToken.id <$> reward_token d)
  /\ forall i j r r',
       reward_token d !! i = Some r -> reward_token d !! j = Some r' ->
       RewardToken.token r = RewardToken.token r' -> i = j.
Proof.
  destruct (registry_wf_reachable qrcode_make API_TOKEN ops users) as (Hok & Htok & _).
  apply db_ok_spec in Hok as [_ Hids]. simpl. split; [done|]. split; [done|].
  intros i j r r' Hi Hj E. eapply NoDup_lookup; [exact Htok| |].
  - rewrite list_lookup_fmap, Hi. reflexivity.
  - rewrite list_lookup_fmap, Hj. simpl. by rewrite E.
Qed.

(** In every state the server reaches from an empty registry each record
    carries a material of the tariff and the tariff's points for it: a bottle
    is worth 100 points, paper 50, and no record is worth anything else. *)
Theorem stored_points_follow_the_tariff
    (image : Type) (qrcode_make : string -> image) (API_TOKEN : string)
    (ops : list (http_request * environment)) (users : gmap Z User.t) :
  let d := (serve_requests qrcode_make API_TOKEN ops
              {| reward_token := []; user := users |} (mkqr ∅ [])).1 in
  Forall (fun r =>
            (RewardToken.material r = "bottle" /\ RewardToken.points r = 100)
            \/ (RewardToken.material r = "paper" /\ RewardToken.points r = 50))
         (reward_token d).
Proof.
  destruct (registry_wf_reachable qrcode_make API_TOKEN ops users) as (_ & _ & Htar).
  simpl. eapply Forall_impl; [exact Htar|]. intros r Hr. simpl in Hr.
  unfold tariff_row in Hr. apply andb_true_iff in Hr as [Hm Hp].
  apply Z.eqb_eq in Hp.
  destruct (proj1 (in_tariff_spec qrcode_make _) Hm) as [E|E]; rewrite E in Hp; auto.
Qed.

(** Whatever requests are served, from whatever state: no record is deleted
    or moved, none changes its key, token, material, points or creation time,
    and none goes back from redeemed to unredeemed. *)
Theorem records_are_kept_as_issued
    (image : Type) (qrcode_make : string -> image) (API_TOKEN : string)
    (ops : list (http_request * environment)) (d : db) (q : qr_dir image) :
  grants_kept d (serve_requests qrcode_make API_TOKEN ops d q).1
  /\ (length (reward_token d)
      <= length (reward_token (serve_requests qrcode_make API_TOKEN ops d q).1))%nat.
Proof.
  assert (grants_kept d (serve_requests qrcode_make API_TOKEN ops d q).1) as Hk.
  { revert d q. induction ops as [|[rq env] ops IH]; intros d q; simpl.
    - apply grants_kept_refl.
    - pose proof (grants_kept_dispatch qrcode_make API_TOKEN rq env d q) as H1.
      destruct (dispatch qrcode_make API_TOKEN rq env d q) as [[resp d1] q1].
      simpl in H1. eapply grants_kept_trans; [exact H1|apply IH]. }
  split; [done|].
  set (d' := (serve_requests qrcode_make API_TOKEN ops d q).1) in *.
  destruct (Nat.le_gt_cases (length (reward_token d)) (length (reward_token d')))
    as [Hle|Hgt]; [done|].
  destruct (lookup_lt_is_Some_2 (reward_token d) (length (reward_token d')) Hgt)
    as [r Hr].
  destruct (Hk _ r Hr) as (r' & Hr' & _). apply lookup_lt_Some in Hr'. lia.
Qed.


(** In every state the server reaches from an empty registry and an empty
    QR directory, the images on file are exactly those of the tokens of the
    registry, each built once, when its token was issued; so fetching a QR
    image never builds one and never changes the directory. *)
Theorem every_issued_token_has_its_image
    (image : Type) (qrcode_make : string -> image) (API_TOKEN : string)
    (ops : list (http_request * environment)) (users : gmap Z User.t) :
  let '(d, q) := serve_requests qrcode_make API_TOKEN ops
                   {| reward_token := []; user := users |} (mkqr ∅ []) in
  (built q).*1 = rev (RewardToken.token <$> reward_token d)
  /\ (forall tok, is_Some (files q !! qr_image_path tok) <-> first_by_token tok d <> None)
  /\ (forall tok host, (serve_qr qrcode_make tok host d q).2 = q).
Proof.
  pose proof (serve_requests_invariant qrcode_make images_follow_records API_TOKEN
                (images_follow_records_dispatch qrcode_make API_TOKEN) ops
                {| reward_token := []; user := users |} (mkqr ∅ [])) as Himg.
  pose proof (serve_requests_qr_ok qrcode_make API_TOKEN ops _ _
                (qr_ok_initial qrcode_make users)) as ((Hfile & _) & _).
  destruct (serve_requests qrcode_make API_TOKEN ops _ _) as [d q]. simpl in *.
  destruct Himg as [Hb Hf]; [by split|].
  assert (forall tok, first_by_token tok d <> None ->
                      is_Some (files q !! qr_image_path tok)) as Hhas.
  { intros tok Hin. destruct (first_by_token tok d) as [r|] eqn:Hr; [|done].
    apply first_by_token_elem in Hr as [Hr <-].
    rewrite Forall_forall in Hf. by apply Hf. }
  split; [done|]. split.
  - intros tok. split; [|by apply Hhas]. intros [img Himg]. by apply (Hfile tok img).
  - intros tok host. unfold serve_qr.
    destruct (first_by_token tok d) as [r|] eqn:Hr; [|done].
    destruct (Hhas tok) as [img ->]; [by rewrite Hr|done].
Qed.

(** ** Levels *)

Lemma current_level_table (points : Z) :
  Levels.current_level points
  = if (800 <=? points)%Z then Levels.mklevel 5 "Легенда" 800 None
    else if (400 <=? points)%Z then Levels.mklevel 4 "Наставник" 400 (Some 800)
    else if (200 <=? points)%Z then Levels.mklevel 3 "Эко-герой" 200 (Some 400)
    else if (100 <=? points)%Z then Levels.mklevel 2 "Собирающий" 100 (Some 200)
    else Levels.mklevel 1 "Новичок" 0 (Some 100).
Proof.
  unfold Levels.current_level, Levels.LEVELS. simpl.
  destruct (Z.leb_spec 800 points); [done|].
  destruct (Z.leb_spec 400 points); [done|].
  destruct (Z.leb_spec 200 points); [done|].
  destruct (Z.leb_spec 100 points); [done|].
  by destruct (Z.leb_spec 0 points).
Qed.

(** The level of a balance brackets it: its index is between 1 and 5; for a
    balance that is not negative the level's threshold is at most the
    balance and the next threshold, when there is one, is above it; the last
    level has no next threshold; a negative balance gets the first level,
    whose threshold it does not reach.  More points never give a lower
    level. *)
Theorem current_level_brackets_the_points (points more : Z) :
  let l := Levels.current_level points in
  1 <= Levels.index l <= 5
  /\ (0 <= points ->
      Levels.threshold l <= points
      /\ match Levels.next_threshold l with
         | Some next => points < next
         | None => Levels.index l = 5
         end)
  /\ (points < 0 -> Levels.index l = 1 /\ Levels.threshold l = 0)
  /\ (points <= more ->
      Levels.index l <= Levels.index (Levels.current_level more)).
Proof.
  simpl. rewrite !current_level_table.
  repeat match goal with
         | |- context [(?a <=? ?b)%Z] => destruct (Z.leb_spec a b)
         end; simpl; repeat split; intros; lia.
Qed.

Lemma current_level_witness :
  Levels.index (Levels.current_level 150)
  <= Levels.index (Levels.current_level 250).
Proof.
  apply (current_level_brackets_the_points 150 250). lia.
Defined.

(** In every state the server reaches from an empty registry, no request of
    the reward flow lowers the level of any user. *)
Theorem no_request_lowers_a_level
    (image : Type) (qrcode_make : string -> image) (API_TOKEN : string)
    (ops : list (http_request * environment)) (users : gmap Z User.t)
    (rq : http_request) (env : environment) (uid : Z) :
  let '(d, q) := serve_requests qrcode_make API_TOKEN ops
                   {| reward_token := []; user := users |} (mkqr ∅ []) in
  let '(_, d', _) := dispatch qrcode_make API_TOKEN rq env d q in
  Levels.index (Levels.current_level (points_of uid d))
  <= Levels.index (Levels.current_level (points_of uid d')).
Proof.
  pose proof (registry_wf_reachable qrcode_make API_TOKEN ops users) as (_ & _ & Htar).
  destruct (serve_requests qrcode_make API_TOKEN ops _ _) as [d q]. simpl in Htar.
  pose proof (dispatch_balances qrcode_make API_TOKEN rq env d q Htar) as [_ H].
  destruct (dispatch qrcode_make API_TOKEN rq env d q) as [[resp d'] q']. simpl in H.
  destruct (H uid) as [E|[_ [E|E]]]; rewrite E, !current_level_table;
    repeat match goal with
           | |- context [(?a <=? ?b)%Z] => destruct (Z.leb_spec a b)
           end; simpl; lia.
Qed.

(** ** Issuance, beyond the claims *)

(** [api_reward] grants (answers 200) exactly when the key is the
    configured one, the body is a JSON object whose "material" is a string
    that lowers to "bottle" or "paper", and the fresh token is not yet in the
    registry. *)
Theorem api_reward_grants_exactly_when
    (image : Type) (qrcode_make : string -> image) (API_TOKEN : string)
    (api_key : option string) (body : option json)
    (uuid : string) (now : Z) (host : string) (d : db) (q : qr_dir image) :
  (exists b, (api_reward qrcode_make API_TOKEN api_key body uuid now host d q).1.1
             = jsonify 200 b)
  <-> api_key = Some API_TOKEN
      /\ (exists members s,
            body = Some (JObj members)
            /\ dict_get "material" members = Some (JStr s)
            /\ in_tariff (lower s) = true)
      /\ first_by_token uuid d = None.
Proof.
  split.
  - unfold api_reward.
    destruct api_key as [k|]; simpl; [|by intros [b [=]]].
    destruct (String.eqb_spec k API_TOKEN) as [->|]; simpl; [|by intros [b [=]]].
    intros [b Hb]. split; [done|].
    repeat case_match; simplify_eq; simpl in *; try discriminate;
      repeat match goal with
             | H : negb _ = false |- _ => apply negb_false_iff in H
             end;
      try (split; [by eauto|done]).
  - intros (-> & (members & s & -> & Hm & Hin) & Hfresh).
    rewrite (api_reward_granted qrcode_make API_TOKEN members s uuid now host d q Hm Hin Hfresh).
    by eexists.
Qed.

(** As long as the database takes the commit unless the token is a
    duplicate, and the QR image is built and written, [api_reward] has five
    answers: the 200 of a grant, 401, 400, and the 500 of an unhandled
    AttributeError or IntegrityError.  It raises AttributeError exactly when
    the key is right and the body is truthy JSON but no object, or an object
    whose "material" is truthy but no string; it raises IntegrityError, at
    the commit, exactly when the key is right, the body names a material of
    the tariff, and the fresh token is already in the registry. *)
Theorem api_reward_breaks_exactly_when
    (image : Type) (qrcode_make : string -> image) (API_TOKEN : string)
    (api_key : option string) (body : option json)
    (uuid : string) (now : Z) (host : string) (d : db) (q : qr_dir image) :
  let resp := (api_reward qrcode_make API_TOKEN api_key body uuid now host d q).1.1 in
  (resp = internal_server_error "AttributeError"
   <-> api_key = Some API_TOKEN
       /\ exists j, body = Some j /\ truthy j = true
          /\ forall members, j = JObj members ->
               exists v, dict_get "material" members = Some v /\ truthy v = true
                         /\ forall s, v <> JStr s)
  /\ (resp = internal_server_error "IntegrityError"
      <-> api_key = Some API_TOKEN
          /\ (exists members s,
                body = Some (JObj members)
                /\ dict_get "material" members = Some (JStr s)
                /\ in_tariff (lower s) = true)
          /\ first_by_token uuid d <> None)
  /\ ((exists b, resp = jsonify 200 b)
      \/ resp = jsonify 401 [("error", JStr "unauthorized")]
      \/ resp = jsonify 400 [("error", JStr "material must be 'bottle' or 'paper'")]
      \/ resp = internal_server_error "AttributeError"
      \/ resp = internal_server_error "IntegrityError").
Proof.
  simpl. split; [|split]; [split|split|].
  - unfold api_reward.
    destruct api_key as [k|]; simpl; [|done].
    destruct (String.eqb_spec k API_TOKEN) as [->|]; simpl; [|done].
    intros Hr. split; [done|].
    destruct body as [j|]; [|by repeat case_match].
    exists j. split; [done|].
    destruct (truthy j) eqn:Hj; [|by repeat case_match].
    split; [done|]. intros members ->.
    destruct (dict_get "material" members) as [v|]; [|by repeat case_match].
    exists v. split; [done|].
    destruct (truthy v) eqn:Hv; [|by repeat case_match].
    split; [done|]. intros s ->. by repeat case_match.
  - intros (-> & j & -> & Hj & Hobj). unfold api_reward.
    rewrite String.eqb_refl. simpl negb. cbv iota. rewrite Hj.
    destruct j as [| | | | |members]; try done.
    destruct (Hobj members eq_refl) as (v & -> & -> & Hs).
    destruct v; try done. by destruct (Hs s).
  - unfold api_reward.
    destruct api_key as [k|]; simpl; [|done].
    destruct (String.eqb_spec k API_TOKEN) as [->|]; simpl; [|done].
    intros Hr. split; [done|].
    repeat case_match; simplify_eq; simpl in *; try discriminate;
      repeat match goal with
             | H : negb _ = false |- _ => apply negb_false_iff in H
             end;
      try (split; [by eauto|congruence]).
  - intros (-> & (members & s & -> & Hm & Hin) & Hdup). unfold api_reward.
    rewrite String.eqb_refl. simpl negb. cbv iota.
    rewrite (dict_get_Some_truthy _ _ _ Hm), Hm.
    assert (truthy (JStr s) = true) as -> by by destruct s.
    rewrite Hin. simpl. by destruct (first_by_token uuid d).
  - unfold api_reward. repeat case_match; simpl; by eauto 6.
Qed.

(** ** Requests in flight together *)

Lemma worker_step_db_cases (w : worker) (d : db) :
  (worker_step w d).2 = d
  \/ exists s now, (worker_step w d).2 = commit_redemption s now d.
Proof.
  destruct w as [rq now|rq s now|resp]; simpl; [|  |by left].
  - left. by destruct rq; match goal with |- context [match ?q with _ => _ end] =>
                            destruct q end.
  - destruct rq; unfold redeem_reward_finish, scan_finish;
      destruct (RewardToken.redeemed (reward s)); simpl; eauto.
Qed.

Lemma schedule_step_spec (cfg : list worker * db) (i : nat) :
  length (schedule_step cfg i).1 = length cfg.1
  /\ ((schedule_step cfg i).2 = cfg.2
      \/ exists s now, (schedule_step cfg i).2 = commit_redemption s now cfg.2).
Proof.
  unfold schedule_step. destruct (cfg.1 !! i) as [w|]; [|by auto].
  pose proof (worker_step_db_cases w cfg.2) as H.
  destruct (worker_step w cfg.2) as [w1 d1]. simpl in *.
  split; [apply length_insert|done].
Qed.

(** However the steps of the workers interleave, the records stay in their
    invariant with distinct keys, no record is deleted, moved or changed in
    what issuance fixed, none goes back to unredeemed, no user appears or
    disappears, and no worker is lost. *)
Theorem any_interleaving_keeps_the_records
    (sched : list nat) (workers : list worker) (d : db) :
  db_ok d = true ->
  let cfg := run_schedule sched (workers, d) in
  db_ok cfg.2 = true /\ grants_kept d cfg.2
  /\ dom (user cfg.2) = dom (user d) /\ length cfg.1 = length workers.
Proof.
  simpl. unfold run_schedule.
  assert (forall cfg : list worker * db,
            db_ok cfg.2 = true ->
            db_ok (foldl schedule_step cfg sched).2 = true
            /\ grants_kept cfg.2 (foldl schedule_step cfg sched).2
            /\ dom (user (foldl schedule_step cfg sched).2) = dom (user cfg.2)
            /\ length (foldl schedule_step cfg sched).1 = length cfg.1) as H.
  { induction sched as [|i sched IH]; intros cfg Hok; simpl.
    - split; [done|]. split; [|done]. intros j r Hj. exists r. by repeat split.
    - destruct (schedule_step_spec cfg i) as [Hlen Hd].
      assert (db_ok (schedule_step cfg i).2 = true
              /\ grants_kept cfg.2 (schedule_step cfg i).2
              /\ dom (user (schedule_step cfg i).2) = dom (user cfg.2))
        as (Hok1 & Hk1 & Hdom1).
      { destruct Hd as [->|(s & now & ->)].
        - split; [done|]. split; [|done]. intros j r Hj. exists r. by repeat split.
        - split; [by apply commit_redemption_ok|]. split.
          + intros j r Hj. pose proof (commit_redemption_rows s now cfg.2) as H.
            destruct (Forall2_lookup_l _ _ _ _ _ H Hj) as (r' & Hj' & Hsame & Hred).
            eauto.
          + unfold commit_redemption. simpl. apply dom_alter_L. }
      destruct (IH (schedule_step cfg i) Hok1) as (Hok2 & Hk2 & Hdom2 & Hlen2).
      split; [done|]. split; [|split; congruence].
      intros j r Hj.
      destruct (Hk1 j r Hj) as (r1 & Hj1 & (E1 & E2 & E3 & E4 & E5) & Hred1).
      destruct (Hk2 j r1 Hj1) as (r2 & Hj2 & (F1 & F2 & F3 & F4 & F5) & Hred2).
      exists r2. split; [done|]. split; [|by auto]. repeat split; congruence. }
  intros Hok. apply (H (workers, d) Hok).
Qed.

Lemma any_interleaving_witness :
  db_ok (run_schedule race_schedule
           (map (fun c : Z * Z => Accepted (RedeemReward (Some c.1) "c0ffee") c.2)
                race_callers, race_db)).2 = true.
Proof.
  apply (any_interleaving_keeps_the_records race_schedule
           (map (fun c : Z * Z => Accepted (RedeemReward (Some c.1) "c0ffee") c.2)
                race_callers) race_db).
  vm_compute. reflexivity.
Defined.

Lemma find_token_commit_other rows tok r rid now uid :
  List.find (fun x => String.eqb (RewardToken.token x) tok) rows = Some r ->
  RewardToken.id r <> rid ->
  List.find (fun x => String.eqb (RewardToken.token x) tok)
    (map (fun x => if (RewardToken.id x =? rid)%Z
                   then RewardToken.redeem now uid x else x) rows)
  = Some r.
Proof.
  induction rows as [|x rows IH]; simpl; [done|].
  destruct (String.eqb (RewardToken.token x) tok) eqn:Hx.
  - intros [= ->] Hne. destruct (Z.eqb_spec (RewardToken.id r) rid); [done|].
    simpl. by rewrite Hx.
  - intros Hfind Hne. destruct (RewardToken.id x =? rid)%Z; simpl;
      rewrite Hx; by apply IH.
Qed.

(** One user redeems two unredeemed tokens in two requests whose queries
    both run before either commit: both requests are told they were
    credited and both records end up redeemed by that user, but the balance
    grows by the points of the second commit only: the first credit is
    overwritten, because each commit writes the balance it computed from the
    row it loaded. *)
Theorem overlapping_redemptions_lose_a_credit
    (d : db) (uid : Z) (u : User.t) (ta tb : string) (ra rb : RewardToken.t)
    (na nb : Z) :
  user d !! uid = Some u ->
  first_by_token ta d = Some ra -> first_by_token tb d = Some rb ->
  RewardToken.id ra <> RewardToken.id rb ->
  RewardToken.redeemed ra = false -> RewardToken.redeemed rb = false ->
  let cfg := run_schedule [0; 1; 0; 1]%nat
               ([Accepted (RedeemReward (Some uid) ta) na;
                 Accepted (RedeemReward (Some uid) tb) nb], d) in
  map outcome_of (omap response_of cfg.1)
    = [Credited (RewardToken.points ra); Credited (RewardToken.points rb)]
  /\ first_by_token ta cfg.2 = Some (RewardToken.redeem na uid ra)
  /\ first_by_token tb cfg.2 = Some (RewardToken.redeem nb uid rb)
  /\ points_of uid cfg.2 = points_of uid d + RewardToken.points rb.
Proof.
  intros Hu Ha Hb Hne Hra Hrb.
  unfold run_schedule, schedule_step. simpl.
  unfold redeem_reward_query. rewrite (load_user_Some _ _ _ Hu), Ha. simpl.
  unfold redeem_reward_query. rewrite (load_user_Some _ _ _ Hu), Hb. simpl.
  unfold redeem_reward_finish. simpl. rewrite Hra. simpl.
  unfold redeem_reward_finish. simpl. rewrite Hrb. simpl.
  split; [done|]. unfold first_by_token, commit_redemption in *. simpl.
  split; [|split].
  - apply find_token_commit_other; [|done]. by apply find_token_commit.
  - apply find_token_commit. by apply find_token_commit_other.
  - unfold points_of. simpl. rewrite !lookup_alter_eq, Hu. simpl. lia.
Qed.

Lemma overlapping_redemptions_witness :
  let d := {| reward_token := [RewardToken.new 1 "aa" "bottle" 100 10;
                               RewardToken.new 2 "bb" "paper" 50 11];
              user := {[ 7 := User.mk "sanzhar" 0 false ]} |} in
  points_of 7 (run_schedule [0; 1; 0; 1]%nat
                 ([Accepted (RedeemReward (Some 7) "aa") 20;
                   Accepted (RedeemReward (Some 7) "bb") 21], d)).2 = 50.
Proof.
  cbv zeta.
  destruct (overlapping_redemptions_lose_a_credit
              {| reward_token := [RewardToken.new 1 "aa" "bottle" 100 10;
                                  RewardToken.new 2 "bb" "paper" 50 11];
                 user := {[ 7 := User.mk "sanzhar" 0 false ]} |}
              7 (User.mk "sanzhar" 0 false) "aa" "bb"
              (RewardToken.new 1 "aa" "bottle" 100 10)
              (RewardToken.new 2 "bb" "paper" 50 11) 20 21)
    as (_ & _ & _ & H);
    [reflexivity|reflexivity|reflexivity|discriminate|reflexivity|reflexivity|].
  etrans; [exact H|reflexivity].
Defined.

(** ** The intake loop, beyond the claims *)

#[local] Open Scope list_scope.

Section IntakeLoopMore.

Variable trigger : string.

Lemma loop_not_fired txt serial camera stdin network :
  fires trigger (Line txt) = false ->
  loop trigger (Line txt :: serial) camera stdin network
  = loop trigger serial camera stdin network.
Proof.
  unfold fires. simpl. destruct (String.eqb (strip txt) ""); [done|].
  simpl. by intros ->.
Qed.

Lemma report_reward_quiet reward ev :
  report_reward reward = returns ev ->
  List.filter is_post ev = [] /\ List.filter is_prompt ev = []
  /\ List.filter is_close ev = [] /\ List.filter is_determined ev = [].
Proof.
  unfold report_reward. destruct reward as [j|]; [|by intros [= <-]].
  destruct (negb (truthy j)); [by intros [= <-]|].
  destruct j; try done.
  destruct (dict_get "material" members); [|done].
  destruct (dict_get "points" members); [|done].
  destruct (dict_get "qr_url" members); [|done].
  by intros [= <-].
Qed.

Lemma follow_redirects_quiet n material posting network :
  List.filter is_prompt (follow_redirects n material posting network).1.2 = []
  /\ List.filter is_close (follow_redirects n material posting network).1.2 = []
  /\ List.filter is_determined (follow_redirects n material posting network).1.2 = [].
Proof.
  revert n posting.
  induction network as [|[|how|status body] network1 IH]; intros n posting; [done..| |].
  - destruct n as [|n]; [done|]. cbn [follow_redirects].
    specialize (IH n (match how with SameMethod => posting | ChangeToGet => false end)).
    destruct (follow_redirects n material _ network1) as [[result ev] network2].
    by destruct how, posting.
  - simpl. destruct (_ && _); [done|]. by destruct body.
Qed.

(** One call of [request_reward]: the POST, and further POSTs only for the
    307 and 308 redirects it uses up. *)
Lemma request_reward_counts material network :
  (1 <= attempts (request_reward material network).1.2)%nat
  /\ (attempts (request_reward material network).1.2
      + reposts (request_reward material network).2 <= S (reposts network))%nat
  /\ List.filter is_prompt (request_reward material network).1.2 = []
  /\ List.filter is_close (request_reward material network).1.2 = []
  /\ List.filter is_determined (request_reward material network).1.2 = [].
Proof.
  unfold request_reward.
  pose proof (follow_redirects_spec max_redirects material true network) as H.
  pose proof (follow_redirects_quiet max_redirects material true network) as Hq.
  destruct (follow_redirects max_redirects material true network) as [[result ev] network1].
  destruct H as (_ & _ & _ & _ & _ & _ & H). destruct Hq as (Hq1 & Hq2 & Hq3).
  unfold attempts in *. simpl in *. repeat split; try done; lia.
Qed.

Ltac count_events :=
  unfold attempts in *; simpl in *;
  rewrite ?List.filter_app, ?length_app in *; simpl in *;
  repeat match goal with
         | H : _ /\ _ |- _ => destruct H
         end;
  repeat match goal with
         | H : List.filter ?f ?l = [] |- _ => rewrite ?H in *; clear H
         end;
  simpl in *; rewrite ?List.filter_app, ?length_app in *; simpl in *; try lia.

#[local] Arguments report_reward : simpl never.
#[local] Arguments request_reward : simpl never.

(** The counts of one run of the loop. *)
Lemma loop_counts serial camera stdin network :
  let tr := (loop trigger serial camera stdin network).1 in
  let calls := length (List.filter is_determined tr) in
  (calls <= length (List.filter (fires trigger) serial))%nat
  /\ (calls <= length (List.filter is_frame camera))%nat
  /\ (calls <= attempts tr)%nat
  /\ (attempts tr <= calls + reposts network)%nat
  /\ (length (List.filter is_prompt tr)
      <= length (List.filter is_uncertain_frame camera))%nat
  /\ List.filter is_close tr = [].
Proof.
  cbv zeta. revert camera stdin network.
  induction serial as [|[|txt] serial IH]; intros camera stdin network.
  - simpl. unfold attempts. simpl. repeat split; lia.
  - specialize (IH camera stdin network). simpl.
    destruct (loop trigger serial camera stdin network) as [tr st].
    count_events; repeat split; try lia; try done.
  - destruct (fires trigger (Line txt)) eqn:Hf.
    2: { rewrite (loop_not_fired _ _ _ _ _ Hf). cbn [List.filter]. rewrite Hf.
         apply IH. }
    cbn [List.filter]. rewrite Hf.
    unfold fires in Hf. apply andb_true_iff in Hf as [Hne Heq].
    apply negb_true_iff in Hne. simpl. rewrite Hne, Heq. simpl.
    destruct camera as [|[| |[blue bright]] camera1]; simpl.
    + specialize (IH [] stdin network).
      destruct (loop trigger serial [] stdin network) as [tr st].
      count_events; repeat split; try lia; try done.
    + specialize (IH camera1 stdin network).
      destruct (loop trigger serial camera1 stdin network) as [tr st].
      count_events; repeat split; try lia; try done.
    + specialize (IH camera1 stdin network).
      destruct (loop trigger serial camera1 stdin network) as [tr st].
      count_events; repeat split; try lia; try done.
    + unfold classify_material, uncertain. simpl.
      destruct blue, bright, stdin as [|typed stdin1]; simpl;
        try (unfold attempts, reposts; simpl; repeat split; lia);
        match goal with
        | |- context [request_reward ?m network] =>
            pose proof (request_reward_counts m network) as Hrr;
            destruct (request_reward m network) as [[[reward|e] ev3] network1]
        end;
        simpl in Hrr |- *;
        try (count_events; repeat split; try lia; done);
        match goal with
        | |- context [report_reward ?r] =>
            let E := fresh "E" in
            destruct (report_reward r) as [ev4|e] eqn:E;
            [apply report_reward_quiet in E|]; simpl
        end;
        try (count_events; repeat split; try lia; done);
        match goal with
        | |- context [loop trigger serial ?c ?s ?n] =>
            specialize (IH c s n);
            destruct (loop trigger serial c s n) as [tr st]
        end;
        count_events; repeat split; try lia; try done.
Qed.

(** The loop never calls [sys.exit]. *)
Lemma loop_status serial camera stdin network :
  forall code, (loop trigger serial camera stdin network).2 <> Exited code.
Proof.
  intros code. revert camera stdin network.
  induction serial as [|[|txt] serial IH]; intros camera stdin network.
  - done.
  - specialize (IH camera stdin network). simpl.
    by destruct (loop trigger serial camera stdin network) as [tr st].
  - destruct (fires trigger (Line txt)) eqn:Hf.
    2: { rewrite (loop_not_fired _ _ _ _ _ Hf). apply IH. }
    unfold fires in Hf. apply andb_true_iff in Hf as [Hne Heq].
    apply negb_true_iff in Hne. simpl. rewrite Hne, Heq. simpl.
    destruct (capture_frame camera) as [[[f|] ev1] camera1].
    + destruct (classify_material f stdin) as [[[material|e] ev2] stdin1]; [|done].
      destruct (request_reward material network) as [[[reward|e] ev3] network1]; [|done].
      destruct (report_reward reward) as [ev4|e]; [|done].
      specialize (IH camera1 stdin1 network1).
      by destruct (loop trigger serial camera1 stdin1 network1) as [tr st].
    + specialize (IH camera1 stdin network).
      by destruct (loop trigger serial camera1 stdin network) as [tr st].
Qed.

End IntakeLoopMore.

(** Reads that are lines but not the trigger, blank lines among them, are
    passed over in silence: the loop prints nothing, sleeps not, touches
    neither camera nor operator nor network, and goes on with the next
    read. *)
Theorem other_lines_are_passed_over
    (trigger : string) (skipped serial : list serial_read)
    (camera : list capture) (stdin : list string) (network : list http_reply) :
  forallb (ignored trigger) skipped = true ->
  loop trigger (skipped ++ serial) camera stdin network
  = loop trigger serial camera stdin network.
Proof.
  induction skipped as [|rd skipped IH]; [done|].
  cbn [forallb app]. intros [Hrd Hrest]%andb_true_iff. unfold ignored in Hrd.
  apply andb_true_iff in Hrd as [Hline Hf]. apply negb_true_iff in Hf.
  destruct rd as [|txt]; [done|].
  rewrite (loop_not_fired trigger txt _ _ _ _ Hf). by apply IH.
Qed.

Lemma other_lines_witness :
  loop "1" [Line "0"; Line "  "; Line "11"; Line ""; Line (utf8 [194; 160; 13; 10]%N);
            Line "1 1"]
       [Frame (mkframe true false)] ["paper"] [RequestException]
  = ([], Listening).
Proof.
  apply (other_lines_are_passed_over "1"
           [Line "0"; Line "  "; Line "11"; Line ""; Line (utf8 [194; 160; 13; 10]%N);
            Line "1 1"] []
           [Frame (mkframe true false)] ["paper"] [RequestException]).
  reflexivity.
Defined.

(** The trigger fires with white space around it, of any kind. *)
Lemma trigger_line_with_white_space :
  fires "1" (Line ("1" ++ utf8 [194; 133]%N)%string) = true
  /\ fires "1" (Line (utf8 [32; 226; 128; 175]%N ++ "1" ++ utf8 [13; 10]%N)%string) = true.
Proof. by vm_compute. Qed.

(** In any run the agent calls [request_reward], each call announced by
    the print of line 112, at most once per trigger read and at most once
    per captured frame.  Every call puts its POST on the wire, and the POSTs
    beyond one per call are those that [requests] sends again on a 307 or
    308 redirect.  The operator is prompted at most once per frame on which
    neither test decides. *)
Theorem at_most_one_request_per_trigger
    (trigger : string) (port : list bool) (serial : list serial_read)
    (camera : list capture) (stdin : list string) (network : list http_reply) :
  let tr := (main trigger port serial camera stdin network).1 in
  let calls := length (List.filter is_determined tr) in
  (calls <= length (List.filter (fires trigger) serial))%nat
  /\ (calls <= length (List.filter is_frame camera))%nat
  /\ (calls <= attempts tr)%nat
  /\ (attempts tr <= calls + reposts network)%nat
  /\ (length (List.filter is_prompt tr)
      <= length (List.filter is_uncertain_frame camera))%nat.
Proof.
  cbv zeta. unfold main. destruct port as [|[|] port];
    try (unfold attempts; simpl; repeat split; lia).
  pose proof (loop_counts trigger serial camera stdin network)
    as (H1 & H2 & H3 & H4 & H5 & _).
  destruct (loop trigger serial camera stdin network) as [tr st].
  unfold attempts in *. simpl in *.
  rewrite !List.filter_app, !length_app.
  destruct st; simpl; repeat split; lia.
Qed.

(** When the trigger fires and the camera gives no frame (it cannot be
    opened, or the read fails), the cycle ends there: the failure is
    reported, no operator is asked, no request is sent, there is no pause,
    and the loop goes on with the next read. *)
Theorem failed_capture_ends_the_cycle
    (trigger txt : string) (serial : list serial_read) (camera : list capture)
    (stdin : list string) (network : list http_reply) :
  fires trigger (Line txt) = true ->
  (forall f, head camera <> Some (Frame f)) ->
  exists report,
    (report = CameraNotOpened \/ report = SnapshotFailed)
    /\ loop trigger (Line txt :: serial) camera stdin network
       = (Stdout SensorEvent :: Stderr report
            :: (loop trigger serial (tail camera) stdin network).1,
          (loop trigger serial (tail camera) stdin network).2).
Proof.
  intros Hf Hcam. unfold fires in Hf. apply andb_true_iff in Hf as [Hne Heq].
  apply negb_true_iff in Hne. simpl. rewrite Hne, Heq. simpl.
  destruct camera as [|[| |f] camera1]; simpl in *.
  - exists CameraNotOpened. split; [by left|].
    by destruct (loop trigger serial [] stdin network).
  - exists CameraNotOpened. split; [by left|].
    by destruct (loop trigger serial camera1 stdin network).
  - exists SnapshotFailed. split; [by right|].
    by destruct (loop trigger serial camera1 stdin network).
  - by destruct (Hcam f).
Qed.

Lemma failed_capture_witness :
  exists report,
    (report = CameraNotOpened \/ report = SnapshotFailed)
    /\ loop "1" [Line "1"; Line "1"] [NoFrame; Frame (mkframe true false)] []
             [RequestException]
       = (Stdout SensorEvent :: Stderr report
            :: (loop "1" [Line "1"] [Frame (mkframe true false)] []
                     [RequestException]).1,
          (loop "1" [Line "1"] [Frame (mkframe true false)] [] [RequestException]).2).
Proof.
  apply (failed_capture_ends_the_cycle "1" "1" [Line "1"]
           [NoFrame; Frame (mkframe true false)] [] [RequestException]).
  - reflexivity.
  - discriminate.
Defined.

(** How a run of the agent ends.  It calls [sys.exit] only when the port
    cannot be opened: the status is 1 and it has done nothing else.  When
    one of the exceptions of the model leaves the loop (EOFError from
    [input], JSONDecodeError from [response.json()], KeyError or TypeError
    from the subscripts of the reward), closing the port and the shutdown
    message are the last two acts, and the port was not closed before; while
    the loop runs the port is never closed. *)
Theorem how_the_agent_stops
    (trigger : string) (port : list bool) (serial : list serial_read)
    (camera : list capture) (stdin : list string) (network : list http_reply) :
  let '(tr, st) := main trigger port serial camera stdin network in
  match st with
  | Exited code =>
      code = 1 /\ head port <> Some true /\ tr = [OpenSerial; Stderr PortOpenFailed]
  | Died e =>
      head port = Some true
      /\ exists before, tr = before ++ [CloseSerial; Stdout ShuttingDown]
                        /\ List.filter is_close before = []
  | Listening => head port = Some true /\ List.filter is_close tr = []
  end.
Proof.
  unfold main. destruct port as [|[|] port]; [done| |done].
  pose proof (loop_counts trigger serial camera stdin network)
    as (_ & _ & _ & _ & _ & Hclose).
  pose proof (loop_status trigger serial camera stdin network) as Hst.
  destruct (loop trigger serial camera stdin network) as [tr st]. simpl in *.
  destruct st as [|code|e]; [|by destruct (Hst code)|].
  - split; [done|]. by rewrite app_nil_r.
  - split; [done|].
    exists (OpenSerial :: Stdout WaitingForSignal :: tr). split; [done|]. simpl. done.
Qed.

(** ** The agent and the server together *)

(** The agent and the server agree.  Whatever [classify_material] returns
    is a material the server knows; so when the agent's request carries the
    configured key and the server's fresh token is new, the server grants
    it, at the tariff's points, and the body it answers with has the three
    fields the agent reports, so the agent prints the reward and does not
    stop on a missing field. *)
Theorem agent_requests_are_granted_and_reported
    (image : Type) (qrcode_make : string -> image) (API_TOKEN : string)
    (f : frame) (stdin stdin1 : list string) (ev : list event) (material : string)
    (uuid : string) (now : Z) (host : string) (d : db) (q : qr_dir image) :
  classify_material f stdin = (returns material, ev, stdin1) ->
  first_by_token uuid d = None ->
  let '(resp, d', _) :=
    api_reward qrcode_make API_TOKEN (Some API_TOKEN)
               (Some (JObj [("material", JStr material)])) uuid now host d q in
  exists body,
    resp = jsonify 200 body
    /\ report_reward (Some (JObj body))
       = returns [Stdout (QrReady (JStr material) (JNum (tariff material))
                                  (JStr (url_for_serve_qr host uuid)))]
    /\ first_by_token uuid d'
       = Some (RewardToken.new (next_id (reward_token d)) uuid material
                               (tariff material) now).
Proof.
  intros Hcl Hfresh.
  destruct (classify_material_determinate f stdin material ev stdin1 Hcl) as [Hm _].
  assert (lower material = material /\ in_tariff material = true) as [Hlow Hin]
    by (destruct Hm as [-> | ->]; done).
  pose proof (api_reward_granted qrcode_make API_TOKEN [("material", JStr material)]
                material uuid now host d q) as Hg.
  rewrite Hlow in Hg. rewrite Hg; [|by simpl|done|done].
  eexists. split; [reflexivity|]. split; [done|].
  unfold first_by_token in *. simpl. rewrite find_app_None by done. simpl.
  by rewrite String.eqb_refl.
Qed.

Lemma agent_requests_witness :
  let '(resp, d', _) :=
    api_reward (fun url : string => url) "changeme" (Some "changeme")
               (Some (JObj [("material", JStr "paper")])) "ab12" 3000
               "http://bin.local" race_db (mkqr ∅ []) in
  exists body, resp = jsonify 200 body
               /\ report_reward (Some (JObj body))
                  = returns [Stdout (QrReady (JStr "paper") (JNum 50)
                                      (JStr "http://bin.local/reward/ab12/qrcode"))].
Proof.
  pose proof (agent_requests_are_granted_and_reported string (fun url => url) "changeme"
                (mkframe false false) ["P"] [] [Prompt] "paper"
                "ab12" 3000 "http://bin.local" race_db (mkqr ∅ [])) as H.
  destruct (api_reward _ _ _ _ _ _ _ _ _) as [[resp d'] q'].
  destruct H as (body & H1 & H2 & _); [reflexivity|reflexivity|].
  exists body. split; assumption.
Defined.
